(** * A shallow embedding of the [log] package (a leveled, structured logger
      facade over zerolog) and the properties of its field composition,
      configuration gate, severity methods and context binding. *)

From stdpp Require Import gmap strings list pretty.

Set Warnings "-register-all".
Local Open Scope Z_scope.

(** ** Values of type [interface{}]

    Field keys and values are Go [interface{}] values.  The constructors
    cover the dynamic types the package inspects ([nil], [int], [bool],
    [string]), the two slice types the package itself stores as a single
    element ([[]string] in [InCtx], [[]interface{}] in [AddDyna]), and any
    other value, carried with its [%+v] rendering. *)

Inductive iface : Type :=
  | Nil
  | Int (v : Z)
  | Bool (v : bool)
  | Str (v : string)
  | StrSlice (v : list string)
  | Slice (v : list iface)
  | Other (repr : string).

(** [x != nil] on an interface value. *)
Definition notNil (x : iface) : bool :=
  match x with
  | Nil => false
  | _ => true
  end.

Definition joinSp (l : list string) : string :=
  match l with
  | [] => ""
  | x :: r => fold_left (fun acc y => acc +:+ " " +:+ y) r x
  end.

(** [fmt.Sprintf("%+v", v)]. *)
Fixpoint sprintfV (v : iface) : string :=
  match v with
  | Nil => "<nil>"
  | Int z => pretty z
  | Bool b => if b then "true" else "false"
  | Str s => s
  | StrSlice l => "[" +:+ joinSp l +:+ "]"
  | Slice l => "[" +:+ joinSp (map sprintfV l) +:+ "]"
  | Other r => r
  end.

(** [stringify], log.go 239-252. *)
Definition stringify (val : iface) : string :=
  match val with
  | Nil => sprintfV Nil
  | Int v => pretty v
  | Bool v => if v then "true" else "false"
  | Str v => v
  | _ => sprintfV val
  end.

(** An [error] value; [None] is the nil error. *)
Definition error : Type := option string.

(** ** The structured writer (zerolog)

    The package writes through [github.com/rs/zerolog], which is not part of
    the repository.  The module below models the part of its interface the
    package calls: a logger value with a writer and a minimum level, the
    [Level] method, which has a value receiver and returns the reconfigured
    copy, event constructors that return a nil event when the level is not
    enabled, event methods that do nothing on a nil event, and [Msg], which
    hands the finished event to the writer.  An event keeps the fields added
    to it, in order; how the writer renders them (and the timestamp it adds)
    is not modelled.  zerolog's global level is left at its default, which the
    package never changes. *)

Module zerolog.

Inductive Level : Type :=
  | DebugLevel | InfoLevel | WarnLevel | ErrorLevel
  | FatalLevel | PanicLevel | NoLevel | Disabled.

Definition levelNum (l : Level) : Z :=
  match l with
  | DebugLevel => 0 | InfoLevel => 1 | WarnLevel => 2 | ErrorLevel => 3
  | FatalLevel => 4 | PanicLevel => 5 | NoLevel => 6 | Disabled => 7
  end.

(** The four destinations the package opens: JSON on stdout and stderr
    ([NewLogger]), console writers on stdout and stderr ([NewDevLogger]). *)
Inductive Writer : Type :=
  | Stdout | Stderr | ConsoleStdout | ConsoleStderr.

Record Logger : Type := mkLogger { w : Writer; level : Level }.

(** [zerolog.New(w)]: the zero level is [DebugLevel]. *)
Definition New (out : Writer) : Logger := mkLogger out DebugLevel.

(** [func (l Logger) Level(lvl Level) Logger]. *)
Definition withLevel (l : Logger) (lvl : Level) : Logger :=
  mkLogger (w l) lvl.

Inductive entry : Type :=
  | EStr (key val : string)
  | EFields (fs : gmap string iface)
  | EErr (err : error).

Record Event : Type := mkEvent {
  ew : Writer;
  elevel : Level;
  buf : list entry
}.

Definition should (l : Logger) (lvl : Level) : bool :=
  levelNum (level l) <=? levelNum lvl.

(** A nil [*Event] is [None]. *)
Definition newEvent (l : Logger) (lvl : Level) : option Event :=
  if should l lvl then Some (mkEvent (w l) lvl []) else None.

Definition Info (l : Logger) : option Event := newEvent l InfoLevel.
Definition Error (l : Logger) : option Event := newEvent l ErrorLevel.

Definition push (x : entry) (e : option Event) : option Event :=
  match e with
  | Some ev => Some (mkEvent (ew ev) (elevel ev) (buf ev ++ [x]))
  | None => None
  end.

Definition Str (key val : string) : option Event → option Event :=
  push (EStr key val).
Definition Fields (fs : gmap string iface) : option Event → option Event :=
  push (EFields fs).
(** [Event.Err]: a nil error adds no field. *)
Definition Err (err : error) : option Event → option Event :=
  match err with
  | Some _ => push (EErr err)
  | None => λ e, e
  end.

(** One writer invocation: the record handed to the sink. *)
Record Line : Type := mkLine {
  lw : Writer;
  llevel : Level;
  lbuf : list entry;
  lmsg : string
}.

Definition Msg (e : option Event) (msg : string) (out : list Line)
  : list Line :=
  match e with
  | Some ev => out ++ [mkLine (ew ev) (elevel ev) (buf ev) msg]
  | None => out
  end.

End zerolog.

(** ** Constants, const.go

    A Go constant block: each specification has a name and, optionally, an
    expression; a specification without one repeats the previous expression,
    and [iota] is the index of the specification in the block. *)

Inductive constExpr : Type :=
  | Lit (z : Z)
  | Iota.

Definition evalConst (e : constExpr) (index : Z) : Z :=
  match e with
  | Lit z => z
  | Iota => index
  end.

Fixpoint evalBlock (specs : list (string * option constExpr))
    (index : Z) (prev : constExpr) : list (string * Z) :=
  match specs with
  | [] => []
  | (n, oe) :: rest =>
      let e := default prev oe in
      (n, evalConst e index) :: evalBlock rest (index + 1) e
  end.

(** const.go 3-14. *)
Definition levelBlock : list (string * option constExpr) :=
  [ ("Disabled", Some (Lit (-1)));
    ("Debug", Some Iota);
    ("Info", None);
    ("Warn", None);
    ("Error", None) ].

Fixpoint valueOf (n : string) (vals : list (string * Z)) : Z :=
  match vals with
  | [] => 0
  | (m, z) :: rest => if String.eqb m n then z else valueOf n rest
  end.

Definition constOf (n : string) : Z :=
  valueOf n (evalBlock levelBlock 0 (Lit 0)).

Definition Disabled : Z := Eval vm_compute in constOf "Disabled".
Definition Debug : Z := Eval vm_compute in constOf "Debug".
Definition Info : Z := Eval vm_compute in constOf "Info".
Definition Warn : Z := Eval vm_compute in constOf "Warn".
Definition Error : Z := Eval vm_compute in constOf "Error".

(** ** Data model, unnamed/part_000 *)

(** [type Logger struct], part_000 12-25.  [dynafields] holds the entries
    the logger sees, the first [len] cells of the slice's backing array.
    The loggers of the store each have a backing array of their own, so an
    append through one is not seen through another: the constructors start
    from the nil slice, [SetDyna] and [ResetDyna] take a new array, and the
    package stores no copy of a logger (the copy [FromCtx] would take needs
    a logger value bound under the unexported key, which nothing binds).  A
    copy of a [Logger] struct made by the caller shares the array of the
    original, and an [AddDyna] through either may then write into a cell
    the other sees; such copies are outside the store, and nothing below is
    stated about them. *)
Record Logger : Type := mkLogger {
  Level : Z;
  Version : string;
  Revision : string;
  StdLog : zerolog.Logger;
  ErrLog : zerolog.Logger;
  dynafields : list iface
}.

(** [type config struct], part_000 27-36. *)
Record config : Type := mkConfig {
  name : string;
  level : Z;
  stfields : list iface;
  configured : bool
}.

(** A non-nil [*Logger] is an address in the store of allocated loggers. *)
Definition loc : Type := nat.

(** Package state: the variable [cfg] (part_000 8), the variable [Default]
    (log.go 18, [None] is the nil pointer), the loggers reachable through
    pointers, and the records handed to the writers so far. *)
Record State : Type := mkState {
  cfg : config;
  Default : option loc;
  heap : list Logger;
  out : list zerolog.Line
}.

(** Zero values of the package variables. *)
Definition zeroState : State :=
  mkState (mkConfig "" 0 [] false) None [] [].

(** ** Sequencing

    A computation reads and writes the package state; [None] is a run-time
    panic (a nil or dangling pointer dereference). *)
Definition M (A : Type) : Type := State → option (A * State).

Definition ret {A} (a : A) : M A := λ s, Some (a, s).

Definition bind {A B} (m : M A) (k : A → M B) : M B :=
  λ s, match m s with
       | Some (a, s') => k a s'
       | None => None
       end.

Notation "'let*' x ':=' m 'in' k" := (bind m (λ x, k))
  (at level 10, x pattern, m at level 100, k at level 200).
Notation "m ';;' k" := (bind m (λ _, k))
  (at level 100, k at level 200, right associativity).

Definition getCfg : M config := λ s, Some (cfg s, s).
Definition putCfg (c : config) : M unit :=
  λ s, Some ((), mkState c (Default s) (heap s) (out s)).
Definition putDefault (d : option loc) : M unit :=
  λ s, Some ((), mkState (cfg s) d (heap s) (out s)).
Definition getOut : M (list zerolog.Line) := λ s, Some (out s, s).
Definition putOut (o : list zerolog.Line) : M unit :=
  λ s, Some ((), mkState (cfg s) (Default s) (heap s) o).

(** [&Logger{...}]: a fresh address holding the value. *)
Definition alloc (l : Logger) : M loc :=
  λ s, Some (length (heap s),
             mkState (cfg s) (Default s) (heap s ++ [l]) (out s)).

(** [*p]. *)
Definition load (p : loc) : M Logger :=
  λ s, match heap s !! p with
       | Some l => Some (l, s)
       | None => None
       end.

(** [*p = l]. *)
Definition store (p : loc) (l : Logger) : M unit :=
  λ s, match heap s !! p with
       | Some _ => Some ((), mkState (cfg s) (Default s)
                                     (<[p := l]> (heap s)) (out s))
       | None => None
       end.

Definition withDyna (l : Logger) (d : list iface) : Logger :=
  mkLogger (Level l) (Version l) (Revision l) (StdLog l) (ErrLog l) d.

Definition withLevel (l : Logger) (lv : Z) : Logger :=
  mkLogger lv (Version l) (Revision l) (StdLog l) (ErrLog l) (dynafields l).

Definition withStdLog (l : Logger) (z : zerolog.Logger) : Logger :=
  mkLogger (Level l) (Version l) (Revision l) z (ErrLog l) (dynafields l).

Definition withErrLog (l : Logger) (z : zerolog.Logger) : Logger :=
  mkLogger (Level l) (Version l) (Revision l) (StdLog l) z (dynafields l).

(** [setup], part_000 49-56. *)
Definition setup (name' : string) (stfields' : list iface) : M unit :=
  let* c := getCfg in
  if configured c then ret ()
  else
    putCfg (mkConfig name' (level c) (stfields c) (configured c));;
    let* c := getCfg in
    putCfg (mkConfig (name c) (level c) (stfields c ++ stfields')
                     (configured c));;
    let* c := getCfg in
    putCfg (mkConfig (name c) (level c) (stfields c) true).

(** [make([]interface{}, n)]. *)
Definition make (n : nat) : list iface := replicate n Nil.

(** [SetDyna] (pointer receiver), part_000 61-64.  The variadic arguments
    arrive as the list [dynafields']. *)
Definition SetDyna (p : loc) (dynafields' : list iface) : M unit :=
  let* l := load p in
  store p (withDyna l (make 2));;
  let* l := load p in
  store p (withDyna l (dynafields l ++ dynafields')).

(** [AddDyna] (pointer receiver), part_000 69-71: the appended element is
    the two-element slice [[]interface{}{key, value}].  The logger is one of
    the store, whose backing array no other logger uses: its entries are the
    old ones followed by the new element, whether [append] wrote in place or
    moved to a larger array. *)
Definition AddDyna (p : loc) (key value : iface) : M unit :=
  let* l := load p in
  store p (withDyna l (dynafields l ++ [Slice [key; value]])).

(** [ResetDyna] (pointer receiver), part_000 75-77. *)
Definition ResetDyna (p : loc) : M unit :=
  let* l := load p in
  store p (withDyna l (make 2)).

(** ** Levels of the sinks, log.go 267-282

    [setLogLevel] receives a pointer to a zerolog logger; the result is the
    logger the pointer designates when the function returns.  Every branch
    calls [l.Level(...)], whose result (the reconfigured copy) is dropped. *)
Definition setLogLevel (l : zerolog.Logger) (level' : Z) : zerolog.Logger :=
  let dropped :=
    match level' with
    | -1 => zerolog.withLevel l zerolog.Disabled
    | 0 => zerolog.withLevel l zerolog.DebugLevel
    | 1 => zerolog.withLevel l zerolog.InfoLevel
    | 2 => zerolog.withLevel l zerolog.WarnLevel
    | 3 => zerolog.withLevel l zerolog.ErrorLevel
    | _ => zerolog.withLevel l zerolog.DebugLevel
    end in
  l.

(** ** Construction, log.go 37-106 *)

(** The body shared, word for word, by [NewLogger] and [NewDevLogger] once
    the two sinks are built. *)
Definition construct (stdl errl : zerolog.Logger) (level' : Z)
    (name' : string) (stfields' : list iface) : M loc :=
  let stdl := setLogLevel stdl level' in
  let errl := setLogLevel errl level' in
  let* l := alloc (mkLogger level' "" "" stdl errl []) in
  let* c := getCfg in
  (if (1 <? Z.of_nat (length stfields')) && negb (configured c)
   then setup name' stfields';; putDefault (Some l)
   else ret ());;
  ret l.

(** [NewLogger], log.go 37-60. *)
Definition NewLogger (level' : Z) (name' : string) (stfields' : list iface)
    : M loc :=
  let level' :=
    if (level' <? Disabled) || (level' >? Error) then Info else level' in
  let stdl := zerolog.New zerolog.Stdout in
  let errl := zerolog.New zerolog.Stderr in
  construct stdl errl level' name' stfields'.

(** [NewDevLogger], log.go 68-91: [log.Output] derives the sinks from
    zerolog's global logger, whose level is the default one. *)
Definition NewDevLogger (level' : Z) (name' : string)
    (stfields' : list iface) : M loc :=
  let level' :=
    if (level' <? Disabled) || (level' >? Error) then Info else level' in
  let stdl := zerolog.New zerolog.ConsoleStdout in
  let errl := zerolog.New zerolog.ConsoleStderr in
  construct stdl errl level' name' stfields'.

(** [Set], log.go 94-96. *)
Definition Set_ (l : option loc) : M unit := putDefault l.

(** [Default], read. *)
Definition getDefault : M (option loc) := λ s, Some (Default s, s).

(** [init], log.go 21-23. *)
Definition init : M unit :=
  let* l := NewLogger Debug "logger" [] in
  putDefault (Some l).

(** ** Field composition, log.go 195-237 *)

(** The loop [for i := 0; i < len(xs)-1; i++ { if xs[i] != nil &&
    xs[i+1] != nil { fs[stringify(xs[i])] = xs[i+1]; i++ } }], started at
    index [i] with the map [fs].  The fuel bounds the number of iterations;
    [length xs] is enough since [i] grows in each one.  [None] stands for a
    panic on an index outside the slice, or for fuel that ran out; neither
    happens ([walkFrom_enough]). *)
Fixpoint walkFrom (fuel : nat) (xs : list iface) (i : Z)
    (fs : gmap string iface) : option (gmap string iface) :=
  match fuel with
  | O => if i <? Z.of_nat (length xs) - 1 then None else Some fs
  | S fuel' =>
      if i <? Z.of_nat (length xs) - 1 then
        match xs !! Z.to_nat i, xs !! Z.to_nat (i + 1) with
        | Some k, Some v =>
            if notNil k && notNil v
            then walkFrom fuel' xs (i + 1 + 1) (<[stringify k := v]> fs)
            else walkFrom fuel' xs (i + 1) fs
        | _, _ => None
        end
      else Some fs
  end.

(** One guarded loop: [if len(xs) > 1 { for ... }]. *)
Definition mergePairs (xs : list iface) (fs : gmap string iface)
    : option (gmap string iface) :=
  if 1 <? Z.of_nat (length xs)
  then walkFrom (length xs) xs 0 fs
  else Some fs.

(** The map [fs] built by [appendKeyValues], log.go 200-235. *)
Definition composeFields (c : config) (dynafields' fields : list iface)
    : option (gmap string iface) :=
  let fs : gmap string iface := ∅ in
  if 1 <? Z.of_nat (length fields) then
    fs ← walkFrom (length fields) fields 0 fs;
    fs ← mergePairs dynafields' fs;
    fs ← mergePairs (stfields c) fs;
    Some fs
  else Some fs.

(** [appendKeyValues], log.go 195-237; the result is the event after the
    calls made on it. *)
Definition appendKeyValues (le : option zerolog.Event)
    (dynafields' fields : list iface) : M (option zerolog.Event) :=
  let* c := getCfg in
  let le := if bool_decide (name c ≠ "")
            then zerolog.Str "name" (name c) le else le in
  match composeFields c dynafields' fields with
  | Some fs => ret (zerolog.Fields fs le)
  | None => λ _, None
  end.

(** [le.Msg(message)]. *)
Definition Msg (le : option zerolog.Event) (message : string) : M unit :=
  let* o := getOut in
  putOut (zerolog.Msg le message o).

(** ** Severity methods, log.go 128-190

    All have a value receiver: they work on a copy [l] of the logger. *)

Definition debugf (l : Logger) (message : string) (fields : list iface)
    : M unit :=
  if Level l >? Debug then ret ()
  else
    let le := zerolog.Info (StdLog l) in
    let* le := appendKeyValues le (dynafields l) fields in
    Msg le message.

Definition infof (l : Logger) (message : string) (fields : list iface)
    : M unit :=
  if Level l >? Info then ret ()
  else
    let le := zerolog.Info (StdLog l) in
    let* le := appendKeyValues le (dynafields l) fields in
    Msg le message.

Definition warnf (l : Logger) (message : string) (fields : list iface)
    : M unit :=
  if Level l >? Warn then ret ()
  else
    let le := zerolog.Info (StdLog l) in
    let* le := appendKeyValues le (dynafields l) fields in
    Msg le message.

Definition errorf (l : Logger) (err : error) (message : string)
    (fields : list iface) : M unit :=
  let le := zerolog.Error (ErrLog l) in
  let* le := appendKeyValues le (dynafields l) fields in
  let le := zerolog.Err err le in
  Msg le message.

(** The exported methods; [meta] is the variadic argument list, [m :: rest]
    is [len(meta) > 0] with [meta[0] = m] and [meta[1:len(meta)] = rest]. *)
Module Logger.

Definition Debug (l : Logger) (meta : list iface) : M unit :=
  match meta with
  | m :: rest => debugf l (stringify m) rest
  | [] => ret ()
  end.

Definition Info (l : Logger) (meta : list iface) : M unit :=
  match meta with
  | m :: rest => infof l (stringify m) rest
  | [] => ret ()
  end.

Definition Warn (l : Logger) (meta : list iface) : M unit :=
  match meta with
  | m :: rest => warnf l (stringify m) rest
  | [] => ret ()
  end.

Definition Error (l : Logger) (err : error) (meta : list iface) : M unit :=
  match meta with
  | m :: rest => errorf l err (stringify m) rest
  | [] => errorf l err "" []
  end.

(** The method [Set] of a logger pointer, log.go 103-106. *)
Definition Set_ (l : loc) : M (option loc) :=
  putDefault (Some l);;
  getDefault.

End Logger.

(** [UpdateLogLevel], log.go 255-266.  The receiver is a copy [l] of the
    caller's logger; the result is that copy when the method returns, which
    Go then discards. *)
Definition UpdateLogLevel (l : Logger) (level' : Z) : M Logger :=
  let current := Error in
  Logger.Info l [Str "Log level updated"; Str ""; Str "log level";
                 Int level'];;
  let l := withLevel l current in
  if (level' <? Disabled) || (level' >? Error) then
    let l := withLevel l level' in
    let l := withStdLog l (setLogLevel (StdLog l) level') in
    let l := withErrLog l (setLogLevel (ErrLog l) level') in
    ret l
  else ret l.

(** A call [p.m(...)] of a value-receiver method [m] through a logger
    pointer [p]: the method runs on a copy of [*p]. *)
Definition via {A} (p : loc) (m : Logger → M A) : M A :=
  let* l := load p in m l.

(** ** Context binding, log.go 25-31 and 108-126 *)

(** Context keys are compared with their dynamic type: a key of type
    [contextKey] differs from a plain string with the same text. *)
Inductive ctxKey : Type :=
  | contextKey (s : string)
  | stringKey (s : string).

#[global] Instance ctxKey_eq_dec : EqDecision ctxKey.
Proof. solve_decision. Defined.

(** const.go 16-18. *)
Definition loggerCtxKey : ctxKey := contextKey "logger".

(** [contextKey.String], part_000 41-43. *)
Definition contextKey_String (c : string) : string := "mw-" +:+ c.

(** Values carried by a context: a logger pointer, a logger value, or
    anything else. *)
Inductive ctxVal : Type :=
  | PtrLogger (p : loc)
  | ValLogger (l : Logger)
  | AnyVal (v : iface).

Inductive Context : Type :=
  | Background
  | WithValue (parent : Context) (key : ctxKey) (val : ctxVal).

(** [ctx.Value(key)]; [None] is the nil interface. *)
Fixpoint Value (ctx : Context) (key : ctxKey) : option ctxVal :=
  match ctx with
  | Background => None
  | WithValue parent k v =>
      if decide (k = key) then Some v else Value parent key
  end.

(** [CtxLogger], log.go 28-31: the assertion is to the pointer type. *)
Definition CtxLogger (ctx : Context) : option loc * bool :=
  match Value ctx loggerCtxKey with
  | Some (PtrLogger l) => (Some l, true)
  | _ => (None, false)
  end.

(** [FromCtx], log.go 120-126: the assertion is to the struct type; on
    success the address of the local copy is returned. *)
Definition FromCtx (ctx : Context) : M (loc * bool) :=
  match Value ctx loggerCtxKey with
  | Some (ValLogger l) =>
      let* p := alloc l in
      ret (p, false)
  | _ =>
      let* c := getCfg in
      let* p := NewLogger (level c) (name c) [] in
      ret (p, true)
  end.

(** [InCtx], log.go 109-115: [fields] has type [[]string] and is passed to
    [SetDyna] as one argument. *)
Definition InCtx (ctx : Context) (fields : list string) : M Context :=
  let* r := FromCtx ctx in
  let l := fst r in
  (if 0 <? Z.of_nat (length fields)
   then SetDyna l [StrSlice fields]
   else ret ());;
  ret (WithValue ctx loggerCtxKey (PtrLogger l)).

(** ** Derived definitions used in the statements *)

(** The walk of [walkFrom] by recursion on the part of the slice still
    ahead: two entries on after an insertion, one entry on otherwise. *)
Fixpoint walk (xs : list iface) (fs : gmap string iface)
    : gmap string iface :=
  match xs with
  | k :: ((v :: rest) as tl) =>
      if notNil k && notNil v
      then walk rest (<[stringify k := v]> fs)
      else walk tl fs
  | _ => fs
  end.

(** The walk as the specification words it (section 4.3): the entries are
    taken two at a time as (key, value); a pair is inserted, under the
    stringified key, only if both are non-nil, and the walk then moves to
    the next pair in either case.  Dynamic pairs are merged over the message
    pairs, static pairs over both. *)
Fixpoint pairMerge (xs : list iface) (fs : gmap string iface)
    : gmap string iface :=
  match xs with
  | k :: v :: rest =>
      pairMerge rest
        (if notNil k && notNil v then <[stringify k := v]> fs else fs)
  | _ => fs
  end.

Definition referenceCompose (message dynamic static : list iface)
    : gmap string iface :=
  pairMerge static (pairMerge dynamic (pairMerge message ∅)).

Definition nilFree (xs : list iface) : Prop :=
  Forall (λ x, notNil x = true) xs.

Definition setOut (s : State) (o : list zerolog.Line) : State :=
  mkState (cfg s) (Default s) (heap s) o.

Definition setHeap (s : State) (h : list Logger) : State :=
  mkState (cfg s) (Default s) h (out s).

(** The condition [len(stfields) > 1 && !cfg.configured]. *)
Definition qualifies (st : list iface) (c : config) : bool :=
  (1 <? Z.of_nat (length st)) && negb (configured c).

(** The normalisation of the level at construction. *)
Definition clamp (lv : Z) : Z :=
  if (lv <? Disabled) || (lv >? Error) then Info else lv.

(** The field map of a record, and the event with the name entry. *)
Definition fieldsOf (c : config) (d fields : list iface)
    : gmap string iface :=
  if 1 <? Z.of_nat (length fields)
  then walk (stfields c) (walk d (walk fields ∅))
  else ∅.

Definition named (c : config) (le : option zerolog.Event)
    : option zerolog.Event :=
  if bool_decide (name c ≠ "") then zerolog.Str "name" (name c) le else le.

(** The event of the three gated methods, ready for [Msg]. *)
Definition stdEvent (c : config) (l : Logger) (fields : list iface)
    : option zerolog.Event :=
  zerolog.Fields (fieldsOf c (dynafields l) fields)
                 (named c (zerolog.Info (StdLog l))).

Definition errEvent (c : config) (l : Logger) (err : error)
    (fields : list iface) : option zerolog.Event :=
  zerolog.Err err
    (zerolog.Fields (fieldsOf c (dynafields l) fields)
                    (named c (zerolog.Error (ErrLog l)))).

Definition gated (thr : Z) (l : Logger) (message : string)
    (fields : list iface) (s : State) : State :=
  if Level l >? thr then s
  else setOut s (zerolog.Msg (stdEvent (cfg s) l fields) message (out s)).

(** The receiver copy at the end of [UpdateLogLevel]: the level written is
    [Error] unless the requested one lies outside [Disabled..Error]; the
    sinks are the ones it started with. *)
Definition updatedCopy (l : Logger) (lv : Z) : Logger :=
  if (lv <? Disabled) || (lv >? Error) then withLevel l lv
  else withLevel l Error.

Definition auditFields (lv : Z) : list iface :=
  [Str ""; Str "log level"; Int lv].

(** The logger a miss in [FromCtx] builds. *)
Definition freshLogger (c : config) : Logger :=
  mkLogger (clamp (level c)) "" "" (zerolog.New zerolog.Stdout)
           (zerolog.New zerolog.Stderr) [].

Definition fromCtxLogger (ctx : Context) (c : config) : Logger * bool :=
  match Value ctx loggerCtxKey with
  | Some (ValLogger l) => (l, false)
  | _ => (freshLogger c, true)
  end.

Definition boundLogger (ctx : Context) (fields : list string) (c : config)
    : Logger :=
  let l := fst (fromCtxLogger ctx c) in
  if 0 <? Z.of_nat (length fields)
  then withDyna l [Nil; Nil; StrSlice fields]
  else l.

(** ** The package interface as a transition system *)

(** One call of an exported operation.  Methods take the logger through
    the pointer the constructors return. *)
Inductive call : Type :=
  | CallNewLogger (level' : Z) (name' : string) (stfields' : list iface)
  | CallNewDevLogger (level' : Z) (name' : string) (stfields' : list iface)
  | CallSet (l : option loc)
  | CallLoggerSet (p : loc)
  | CallSetDyna (p : loc) (dynafields' : list iface)
  | CallAddDyna (p : loc) (key value : iface)
  | CallResetDyna (p : loc)
  | CallDebug (p : loc) (meta : list iface)
  | CallInfo (p : loc) (meta : list iface)
  | CallWarn (p : loc) (meta : list iface)
  | CallError (p : loc) (err : error) (meta : list iface)
  | CallUpdateLogLevel (p : loc) (level' : Z)
  | CallFromCtx (ctx : Context)
  | CallInCtx (ctx : Context) (fields : list string).

Definition exec (c : call) : M unit :=
  match c with
  | CallNewLogger lv n st => let* _ := NewLogger lv n st in ret ()
  | CallNewDevLogger lv n st => let* _ := NewDevLogger lv n st in ret ()
  | CallSet l => Set_ l
  | CallLoggerSet p => let* _ := Logger.Set_ p in ret ()
  | CallSetDyna p d => SetDyna p d
  | CallAddDyna p k v => AddDyna p k v
  | CallResetDyna p => ResetDyna p
  | CallDebug p meta => via p (λ l, Logger.Debug l meta)
  | CallInfo p meta => via p (λ l, Logger.Info l meta)
  | CallWarn p meta => via p (λ l, Logger.Warn l meta)
  | CallError p err meta => via p (λ l, Logger.Error l err meta)
  | CallUpdateLogLevel p lv =>
      let* _ := via p (λ l, UpdateLogLevel l lv) in ret ()
  | CallFromCtx ctx => let* _ := FromCtx ctx in ret ()
  | CallInCtx ctx fields => let* _ := InCtx ctx fields in ret ()
  end.

(** [loggerCtxKey] is unexported: a binding under it is one [InCtx] made,
    and [InCtx] binds a pointer. *)
Fixpoint ownBindings (ctx : Context) : bool :=
  match ctx with
  | Background => true
  | WithValue parent k v =>
      ownBindings parent &&
      (if decide (k = loggerCtxKey)
       then match v with PtrLogger _ => true | _ => false end
       else true)
  end.

Definition callOk (c : call) : Prop :=
  match c with
  | CallFromCtx ctx | CallInCtx ctx _ => ownBindings ctx = true
  | _ => True
  end.

Inductive step : State → State → Prop :=
  | step_call (c : call) (s s' : State) :
      callOk c → exec c s = Some ((), s') → step s s'.

(** The state once [init] has run on the zero values. *)
Definition boot : State :=
  match init zeroState with
  | Some (_, s) => s
  | None => zeroState
  end.

Definition reachable (s : State) : Prop := rtc step boot s.

(** Sinks as the constructors build them: both at zerolog's default level,
    the normal one on standard output, the error one on standard error. *)
Definition isStdout (x : zerolog.Writer) : bool :=
  match x with
  | zerolog.Stdout | zerolog.ConsoleStdout => true
  | _ => false
  end.

Definition isStderr (x : zerolog.Writer) : bool :=
  match x with
  | zerolog.Stderr | zerolog.ConsoleStderr => true
  | _ => false
  end.

Definition openSinks (l : Logger) : Prop :=
  zerolog.level (StdLog l) = zerolog.DebugLevel ∧
  zerolog.level (ErrLog l) = zerolog.DebugLevel ∧
  isStdout (zerolog.w (StdLog l)) = true ∧
  isStderr (zerolog.w (ErrLog l)) = true.

Record inv (s : State) : Prop := mkInv {
  inv_sinks : Forall openSinks (heap s);
  inv_unconfigured :
    configured (cfg s) = false → name (cfg s) = "" ∧ stfields (cfg s) = []
}.

(** The two constructors. *)
Inductive ctor : Type := Production | Development.

Definition new (k : ctor) : Z → string → list iface → M loc :=
  match k with
  | Production => NewLogger
  | Development => NewDevLogger
  end.

Definition sinksOf (k : ctor) : zerolog.Logger * zerolog.Logger :=
  match k with
  | Production =>
      (zerolog.New zerolog.Stdout, zerolog.New zerolog.Stderr)
  | Development =>
      (zerolog.New zerolog.ConsoleStdout, zerolog.New zerolog.ConsoleStderr)
  end.

(** The instance a constructor builds. *)
Definition built (k : ctor) (lv : Z) : Logger :=
  mkLogger (clamp lv) "" "" (fst (sinksOf k)) (snd (sinksOf k)) [].

(** The three gated methods. *)
Inductive gatedMethod : Type := MDebug | MInfo | MWarn.

Definition method (g : gatedMethod) : Logger → list iface → M unit :=
  match g with
  | MDebug => Logger.Debug
  | MInfo => Logger.Info
  | MWarn => Logger.Warn
  end.

Definition threshold (g : gatedMethod) : Z :=
  match g with
  | MDebug => Debug
  | MInfo => Info
  | MWarn => Warn
  end.

(** The message of a call: [stringify(meta[0])], or the empty string of
    [Error] without arguments. *)
Definition messageOf (meta : list iface) : string :=
  match meta with
  | m :: _ => stringify m
  | [] => ""
  end.

(** ** Runs of several calls *)

Definition runCalls (cs : list call) : M unit :=
  foldr (λ c k, exec c;; k) (ret ()) cs.

Definition stateAfter (cs : list call) (s : State) : State :=
  match runCalls cs s with
  | Some (_, s') => s'
  | None => s
  end.

(** A logger built at level [Disabled], after start-up. *)
Definition disabledRun : State :=
  stateAfter [CallNewLogger Disabled "svc" [Str "rev"; Str "123"]] boot.

(** A logger built at level [Warn] with [NewDevLogger], after start-up. *)
Definition warnRun : State :=
  stateAfter [CallNewDevLogger Warn "" []] boot.

(** ** Further vocabulary for the statements *)

(** The logger a call works on, for the two calls that give a logger a
    new backing array, [SetDyna] and [ResetDyna]. *)
Definition dynaTarget (c : call) : option loc :=
  match c with
  | CallSetDyna p _ | CallResetDyna p => Some p
  | _ => None
  end.

(** What a run leaves at the address [p], in the package variables and in
    the output. *)
Definition viewAt (p : loc) (r : option (unit * State))
    : option (option Logger * config * option loc * list zerolog.Line) :=
  (λ x, (heap (snd x) !! p, cfg (snd x), Default (snd x), out (snd x)))
    <$> r.

(** Bindings pushed on a context one after the other with
    [context.WithValue], the head of the list last. *)
Definition pushAll (kvs : list (ctxKey * ctxVal)) (ctx : Context) : Context :=
  foldr (λ kv c, WithValue c (fst kv) (snd kv)) ctx kvs.

(** Number of records a run of [new] followed by one gated call adds. *)
Definition written (s s' : State) : nat := (length (out s') - length (out s))%nat.


(** * Properties *)

(** ** The pair walk *)

Lemma walk_short (xs : list iface) (fs : gmap string iface) :
  (length xs ≤ 1)%nat → walk xs fs = fs.
Proof.
  destruct xs as [|k [|v rest]]; simpl; intros H; try reflexivity; lia.
Qed.

Lemma drop_two (xs : list iface) (i : nat) :
  (i + 1 < length xs)%nat →
  ∃ k v, xs !! i = Some k ∧ xs !! (i + 1)%nat = Some v ∧
         drop i xs = k :: v :: drop (i + 2) xs.
Proof.
  intros H.
  destruct (lookup_lt_is_Some_2 xs i) as [k Hk]; [lia|].
  destruct (lookup_lt_is_Some_2 xs (i + 1)) as [v Hv]; [lia|].
  exists k, v. split; [done|]. split; [done|].
  rewrite (drop_S _ _ _ Hk). f_equal.
  replace (S i) with (i + 1)%nat by lia.
  rewrite (drop_S _ _ _ Hv). f_equal. f_equal. lia.
Qed.

(** The index loop, given enough fuel, never panics and computes [walk] on
    the part of the slice that is still ahead. *)
Lemma walkFrom_enough (xs : list iface) :
  ∀ (fuel i : nat) (fs : gmap string iface),
    (i ≤ length xs)%nat → (length xs ≤ fuel + i)%nat →
    walkFrom fuel xs (Z.of_nat i) fs = Some (walk (drop i xs) fs).
Proof.
  induction fuel as [|fuel IH]; intros i fs Hi Hf; simpl.
  - case_match.
    + apply Z.ltb_lt in H. lia.
    + rewrite walk_short; [done|]. rewrite length_drop. lia.
  - destruct (Z.ltb_spec (Z.of_nat i) (Z.of_nat (length xs) - 1)) as [Hlt|Hge].
    + destruct (drop_two xs i) as (k & v & Hk & Hv & Hd); [lia|].
      rewrite Nat2Z.id.
      replace (Z.to_nat (Z.of_nat i + 1)) with (i + 1)%nat by lia.
      rewrite Hk, Hv, Hd. simpl.
      destruct (notNil k && notNil v) eqn:Hnn.
      * replace (Z.of_nat i + 1 + 1) with (Z.of_nat (i + 2)) by lia.
        rewrite IH by lia. done.
      * replace (Z.of_nat i + 1) with (Z.of_nat (i + 1)) by lia.
        rewrite IH by lia. rewrite (drop_S _ _ _ Hv).
        by replace (S (i + 1)) with (i + 2)%nat by lia.
    + rewrite walk_short; [done|]. rewrite length_drop. lia.
Qed.

Lemma walkFrom_walk (xs : list iface) (fs : gmap string iface) :
  walkFrom (length xs) xs 0 fs = Some (walk xs fs).
Proof.
  change 0 with (Z.of_nat 0).
  rewrite walkFrom_enough by lia. by rewrite drop_0.
Qed.

Lemma mergePairs_walk (xs : list iface) (fs : gmap string iface) :
  mergePairs xs fs = Some (walk xs fs).
Proof.
  unfold mergePairs. destruct (Z.ltb_spec 1 (Z.of_nat (length xs))).
  - apply walkFrom_walk.
  - rewrite walk_short; [done | lia].
Qed.

(** [composeFields] never panics: the three walks run in the order message,
    dynamic, static when there are at least two message entries, and not at
    all otherwise. *)
Lemma composeFields_walk (c : config) (d fields : list iface) :
  composeFields c d fields =
    Some (if 1 <? Z.of_nat (length fields)
          then walk (stfields c) (walk d (walk fields ∅))
          else ∅).
Proof.
  unfold composeFields. case_match; [|done].
  rewrite walkFrom_walk. simpl.
  rewrite mergePairs_walk. simpl.
  rewrite mergePairs_walk. done.
Qed.

(** On a slice without nil entries the code's walk is the pairwise one. *)
Lemma walk_nilFree (xs : list iface) :
  nilFree xs → ∀ fs, walk xs fs = pairMerge xs fs.
Proof.
  remember (length xs) as n eqn:Hn.
  revert xs Hn. induction (lt_wf n) as [n _ IH].
  intros [|k [|v rest]] Hn Hnf fs; try reflexivity.
  simpl in *. inversion Hnf as [|? ? Hk Hnf']; subst.
  inversion Hnf' as [|? ? Hv Hrest]; subst.
  rewrite Hk, Hv. simpl.
  apply (IH (length rest)); [lia | done | done].
Qed.

(** With at least two message entries and no nil entry anywhere, the
    composed map is the reference merge: static over dynamic over message. *)
Lemma composeFields_reference (c : config) (d fields : list iface) :
  (2 ≤ length fields)%nat →
  nilFree fields → nilFree d → nilFree (stfields c) →
  composeFields c d fields = Some (referenceCompose fields d (stfields c)).
Proof.
  intros Hlen Hf Hd Hs. rewrite composeFields_walk.
  destruct (Z.ltb_spec 1 (Z.of_nat (length fields))); [|lia].
  unfold referenceCompose.
  by rewrite !walk_nilFree.
Qed.

(** Precedence where all three walks run: a static pair decides the value
    of its key, whatever the message and dynamic fields bind it to. *)
Lemma static_pair_wins (c : config) (d fields : list iface) (k v : iface) :
  (2 ≤ length fields)%nat →
  stfields c = [k; v] → notNil k = true → notNil v = true →
  ∃ fs, composeFields c d fields = Some fs ∧ fs !! stringify k = Some v.
Proof.
  intros Hlen Hst Hk Hv. rewrite composeFields_walk.
  destruct (Z.ltb_spec 1 (Z.of_nat (length fields))); [|lia].
  eexists. split; [done|].
  rewrite Hst. simpl. rewrite Hk, Hv. simpl. apply lookup_insert_eq.
Qed.

(** ** The operations as state transformers *)

(** No branch of [setLogLevel] changes the logger it is given. *)
Lemma setLogLevel_id (z : zerolog.Logger) (lv : Z) : setLogLevel z lv = z.
Proof. reflexivity. Qed.

Lemma construct_eq (stdl errl : zerolog.Logger) (lv : Z) (n : string)
    (st : list iface) (s : State) :
  construct stdl errl lv n st s =
    Some (length (heap s),
          mkState
            (if qualifies st (cfg s)
             then mkConfig n (level (cfg s)) (stfields (cfg s) ++ st) true
             else cfg s)
            (if qualifies st (cfg s) then Some (length (heap s))
             else Default s)
            (heap s ++ [mkLogger lv "" "" stdl errl []])
            (out s)).
Proof.
  destruct s as [[cn cl cs cc] d h o]. unfold qualifies. simpl.
  unfold construct, bind, alloc, getCfg, setup, putCfg, putDefault, ret.
  simpl. destruct (1 <? Z.of_nat (length st)), cc; reflexivity.
Qed.

Lemma NewLogger_eq (lv : Z) (n : string) (st : list iface) (s : State) :
  NewLogger lv n st s =
    construct (zerolog.New zerolog.Stdout) (zerolog.New zerolog.Stderr)
              (clamp lv) n st s.
Proof. reflexivity. Qed.

Lemma NewDevLogger_eq (lv : Z) (n : string) (st : list iface) (s : State) :
  NewDevLogger lv n st s =
    construct (zerolog.New zerolog.ConsoleStdout)
              (zerolog.New zerolog.ConsoleStderr) (clamp lv) n st s.
Proof. reflexivity. Qed.

Lemma SetDyna_eq (p : loc) (d : list iface) (l : Logger) (s : State) :
  heap s !! p = Some l →
  SetDyna p d s =
    Some ((), setHeap s (<[p := withDyna l (Nil :: Nil :: d)]> (heap s))).
Proof.
  intros H. assert (Hp : (p < length (heap s))%nat) by by eapply lookup_lt_Some.
  unfold SetDyna, bind, load, store. rewrite H. simpl. rewrite H. simpl.
  rewrite list_lookup_insert_eq by done. simpl.
  rewrite list_lookup_insert_eq by done.
  unfold setHeap. simpl. by rewrite list_insert_insert_eq.
Qed.

Lemma AddDyna_eq (p : loc) (k v : iface) (l : Logger) (s : State) :
  heap s !! p = Some l →
  AddDyna p k v s =
    Some ((), setHeap s
                (<[p := withDyna l (dynafields l ++ [Slice [k; v]])]>
                   (heap s))).
Proof.
  intros H. unfold AddDyna, bind, load, store. by rewrite H; simpl; rewrite H.
Qed.

Lemma ResetDyna_eq (p : loc) (l : Logger) (s : State) :
  heap s !! p = Some l →
  ResetDyna p s =
    Some ((), setHeap s (<[p := withDyna l [Nil; Nil]]> (heap s))).
Proof.
  intros H. unfold ResetDyna, bind, load, store.
  by rewrite H; simpl; rewrite H.
Qed.

Lemma appendKeyValues_eq (le : option zerolog.Event) (d fields : list iface)
    (s : State) :
  appendKeyValues le d fields s =
    Some (zerolog.Fields (fieldsOf (cfg s) d fields) (named (cfg s) le), s).
Proof.
  unfold appendKeyValues, bind, getCfg. rewrite composeFields_walk.
  reflexivity.
Qed.

Lemma debugf_eq (l : Logger) (m : string) (f : list iface) (s : State) :
  debugf l m f s = Some ((), gated Debug l m f s).
Proof.
  unfold debugf, gated. destruct (Level l >? Debug); [done|].
  unfold bind. by rewrite appendKeyValues_eq.
Qed.

Lemma infof_eq (l : Logger) (m : string) (f : list iface) (s : State) :
  infof l m f s = Some ((), gated Info l m f s).
Proof.
  unfold infof, gated. destruct (Level l >? Info); [done|].
  unfold bind. by rewrite appendKeyValues_eq.
Qed.

Lemma warnf_eq (l : Logger) (m : string) (f : list iface) (s : State) :
  warnf l m f s = Some ((), gated Warn l m f s).
Proof.
  unfold warnf, gated. destruct (Level l >? Warn); [done|].
  unfold bind. by rewrite appendKeyValues_eq.
Qed.

Lemma errorf_eq (l : Logger) (err : error) (m : string) (f : list iface)
    (s : State) :
  errorf l err m f s =
    Some ((), setOut s (zerolog.Msg (errEvent (cfg s) l err f) m (out s))).
Proof. unfold errorf, bind. by rewrite appendKeyValues_eq. Qed.

Lemma UpdateLogLevel_eq (l : Logger) (lv : Z) (s : State) :
  UpdateLogLevel l lv s =
    Some (updatedCopy l lv,
          gated Info l "Log level updated" (auditFields lv) s).
Proof.
  unfold UpdateLogLevel, updatedCopy, bind, Logger.Info.
  rewrite infof_eq. simpl.
  destruct ((lv <? Disabled) || (lv >? Error)); reflexivity.
Qed.

Lemma via_eq {A} (p : loc) (m : Logger → M A) (l : Logger) (s : State) :
  heap s !! p = Some l → via p m s = m l s.
Proof. intros H. unfold via, bind, load. by rewrite H. Qed.

Lemma FromCtx_eq (ctx : Context) (s : State) :
  FromCtx ctx s =
    Some ((length (heap s), snd (fromCtxLogger ctx (cfg s))),
          setHeap s (heap s ++ [fst (fromCtxLogger ctx (cfg s))])).
Proof.
  unfold FromCtx, fromCtxLogger.
  destruct (Value ctx loggerCtxKey) as [[p|l|v]|]; try reflexivity;
    unfold bind, getCfg; rewrite NewLogger_eq, construct_eq;
    destruct s as [[cn cl cs cc] d h o]; reflexivity.
Qed.

Lemma InCtx_eq (ctx : Context) (fields : list string) (s : State) :
  InCtx ctx fields s =
    Some (WithValue ctx loggerCtxKey (PtrLogger (length (heap s))),
          setHeap s (heap s ++ [boundLogger ctx fields (cfg s)])).
Proof.
  unfold InCtx, bind. rewrite FromCtx_eq. simpl.
  unfold boundLogger. destruct (0 <? Z.of_nat (length fields)).
  - erewrite SetDyna_eq; simpl.
    2:{ rewrite lookup_app_r by done. by rewrite Nat.sub_diag. }
    unfold setHeap; simpl. rewrite insert_app_r_alt by done.
    by rewrite Nat.sub_diag.
  - reflexivity.
Qed.


Lemma new_eq (k : ctor) (lv : Z) (n : string) (st : list iface) (s : State) :
  new k lv n st s =
    Some (length (heap s),
          mkState
            (if qualifies st (cfg s)
             then mkConfig n (level (cfg s)) (stfields (cfg s) ++ st) true
             else cfg s)
            (if qualifies st (cfg s) then Some (length (heap s))
             else Default s)
            (heap s ++ [built k lv])
            (out s)).
Proof.
  destruct k; simpl.
  - by rewrite NewLogger_eq, construct_eq.
  - by rewrite NewDevLogger_eq, construct_eq.
Qed.

Lemma method_eq (g : gatedMethod) (l : Logger) (m : iface)
    (rest : list iface) (s : State) :
  method g l (m :: rest) s =
    Some ((), gated (threshold g) l (stringify m) rest s).
Proof.
  destruct g; simpl; [apply debugf_eq | apply infof_eq | apply warnf_eq].
Qed.

Lemma Error_eq (l : Logger) (err : error) (meta : list iface) (s : State) :
  Logger.Error l err meta s =
    Some ((), setOut s (zerolog.Msg (errEvent (cfg s) l err (tail meta))
                                    (messageOf meta) (out s))).
Proof. destruct meta; simpl; apply errorf_eq. Qed.

(** ** Invariant of the reachable states *)

Lemma ownBindings_miss (ctx : Context) (c : config) :
  ownBindings ctx = true → fromCtxLogger ctx c = (freshLogger c, true).
Proof.
  unfold fromCtxLogger. induction ctx as [|parent IH k v]; simpl; [done|].
  intros [Hp Hk]%andb_true_iff. destruct (decide (k = loggerCtxKey)).
  - by destruct v.
  - by apply IH.
Qed.

Lemma openSinks_withDyna (l : Logger) (d : list iface) :
  openSinks l → openSinks (withDyna l d).
Proof. done. Qed.

Lemma openSinks_built (k : ctor) (lv : Z) : openSinks (built k lv).
Proof. by destruct k. Qed.

Lemma openSinks_fresh (c : config) : openSinks (freshLogger c).
Proof. done. Qed.

Lemma inv_frame (s s' : State) :
  heap s' = heap s → cfg s' = cfg s → inv s → inv s'.
Proof. intros Hh Hc [H1 H2]. split; by rewrite ?Hh, ?Hc. Qed.

Lemma gated_frame (thr : Z) (l : Logger) (m : string) (f : list iface)
    (s : State) :
  heap (gated thr l m f s) = heap s ∧ cfg (gated thr l m f s) = cfg s ∧
  Default (gated thr l m f s) = Default s.
Proof. unfold gated. by destruct (Level l >? thr). Qed.

Lemma inv_insert (s : State) (p : loc) (l : Logger) (d : list iface) :
  heap s !! p = Some l → inv s →
  inv (setHeap s (<[p := withDyna l d]> (heap s))).
Proof.
  intros Hp [H1 H2]. split; [|done]. simpl.
  apply Forall_insert; [done|]. apply openSinks_withDyna.
  by eapply Forall_lookup_1.
Qed.

Lemma inv_snoc (s : State) (l : Logger) :
  openSinks l → inv s → inv (setHeap s (heap s ++ [l])).
Proof.
  intros Hl [H1 H2]. split; [|done]. simpl.
  apply Forall_app. split; [done|]. by constructor.
Qed.

Lemma inv_boot : inv boot.
Proof.
  split.
  - repeat constructor.
  - done.
Qed.

(** Reads off the final state from a finished run. *)
Local Ltac resolve H := simpl in H; unfold ret in H; simplify_eq.

Lemma exec_inv (c : call) (s s' : State) :
  callOk c → exec c s = Some ((), s') → inv s → inv s'.
Proof.
  intros Hok Hex Hinv.
  destruct c; simpl in Hex, Hok; unfold bind in Hex.
  - change NewLogger with (new Production) in Hex.
    rewrite new_eq in Hex. resolve Hex. destruct Hinv as [H1 H2].
    split; simpl.
    + apply Forall_app. split; [done|]. constructor; [|done].
      apply openSinks_built.
    + by destruct (qualifies stfields' (cfg s)).
  - change NewDevLogger with (new Development) in Hex.
    rewrite new_eq in Hex. resolve Hex. destruct Hinv as [H1 H2].
    split; simpl.
    + apply Forall_app. split; [done|]. constructor; [|done].
      apply openSinks_built.
    + by destruct (qualifies stfields' (cfg s)).
  - unfold Set_, putDefault in Hex. resolve Hex. by apply (inv_frame s).
  - unfold Logger.Set_, bind, putDefault, getDefault in Hex. resolve Hex.
    by apply (inv_frame s).
  - destruct (heap s !! p) as [l|] eqn:Hp.
    + erewrite SetDyna_eq in Hex by done. resolve Hex. by apply inv_insert.
    + unfold SetDyna, bind, load in Hex. by rewrite Hp in Hex.
  - destruct (heap s !! p) as [l|] eqn:Hp.
    + erewrite AddDyna_eq in Hex by done. resolve Hex. by apply inv_insert.
    + unfold AddDyna, bind, load in Hex. by rewrite Hp in Hex.
  - destruct (heap s !! p) as [l|] eqn:Hp.
    + erewrite ResetDyna_eq in Hex by done. resolve Hex. by apply inv_insert.
    + unfold ResetDyna, bind, load in Hex. by rewrite Hp in Hex.
  - destruct (heap s !! p) as [l|] eqn:Hp;
      [|unfold via, bind, load in Hex; by rewrite Hp in Hex].
    erewrite via_eq in Hex by done. destruct meta as [|m rest].
    + by resolve Hex.
    + change Logger.Debug with (method MDebug) in Hex.
      rewrite method_eq in Hex. resolve Hex.
      apply (inv_frame s); [..|done]; apply gated_frame.
  - destruct (heap s !! p) as [l|] eqn:Hp;
      [|unfold via, bind, load in Hex; by rewrite Hp in Hex].
    erewrite via_eq in Hex by done. destruct meta as [|m rest].
    + by resolve Hex.
    + change Logger.Info with (method MInfo) in Hex.
      rewrite method_eq in Hex. resolve Hex.
      apply (inv_frame s); [..|done]; apply gated_frame.
  - destruct (heap s !! p) as [l|] eqn:Hp;
      [|unfold via, bind, load in Hex; by rewrite Hp in Hex].
    erewrite via_eq in Hex by done. destruct meta as [|m rest].
    + by resolve Hex.
    + change Logger.Warn with (method MWarn) in Hex.
      rewrite method_eq in Hex. resolve Hex.
      apply (inv_frame s); [..|done]; apply gated_frame.
  - destruct (heap s !! p) as [l|] eqn:Hp;
      [|unfold via, bind, load in Hex; by rewrite Hp in Hex].
    erewrite via_eq in Hex by done. rewrite Error_eq in Hex. resolve Hex.
    by apply (inv_frame s).
  - destruct (heap s !! p) as [l|] eqn:Hp;
      [|unfold via, bind, load in Hex; by rewrite Hp in Hex].
    erewrite via_eq in Hex by done. rewrite UpdateLogLevel_eq in Hex.
    resolve Hex.
    apply (inv_frame s); [..|done]; apply gated_frame.
  - rewrite FromCtx_eq in Hex. resolve Hex.
    rewrite ownBindings_miss by done. simpl.
    apply inv_snoc; [apply openSinks_fresh | done].
  - rewrite InCtx_eq in Hex. resolve Hex.
    apply inv_snoc; [|done]. unfold boundLogger.
    rewrite ownBindings_miss by done. simpl.
    destruct (0 <? Z.of_nat (length fields)); done.
Qed.

Lemma reachable_inv (s : State) : reachable s → inv s.
Proof.
  unfold reachable. intros H.
  apply (rtc_ind_r (R := step) (λ x, inv x) boot);
    [apply inv_boot | | exact H].
  intros y z _ Hstep IH.
  destruct Hstep as [c s' s'' Hok Hex]. by eapply exec_inv.
Qed.

(** ** The configuration is written at most once *)

(** A call either leaves [cfg] alone or is a qualifying construction. *)
Lemma exec_cfg (c : call) (s s' : State) :
  exec c s = Some ((), s') →
  cfg s' = cfg s ∨
  ∃ n st, qualifies st (cfg s) = true ∧
          cfg s' = mkConfig n (level (cfg s)) (stfields (cfg s) ++ st) true.
Proof.
  intros Hex.
  destruct c; simpl in Hex; unfold bind in Hex;
    try (destruct (heap s !! p) as [l|] eqn:Hp;
         [|unfold via, SetDyna, AddDyna, ResetDyna, bind, load in Hex;
           by rewrite Hp in Hex]).
  - change NewLogger with (new Production) in Hex.
    rewrite new_eq in Hex. resolve Hex.
    destruct (qualifies stfields' (cfg s)) eqn:Hq; [right|left]; eauto.
  - change NewDevLogger with (new Development) in Hex.
    rewrite new_eq in Hex. resolve Hex.
    destruct (qualifies stfields' (cfg s)) eqn:Hq; [right|left]; eauto.
  - unfold Set_, putDefault in Hex. resolve Hex. by left.
  - unfold Logger.Set_, bind, putDefault, getDefault in Hex. resolve Hex.
    by left.
  - erewrite SetDyna_eq in Hex by done. resolve Hex. by left.
  - erewrite AddDyna_eq in Hex by done. resolve Hex. by left.
  - erewrite ResetDyna_eq in Hex by done. resolve Hex. by left.
  - erewrite via_eq in Hex by done. destruct meta as [|m rest].
    + resolve Hex. by left.
    + change Logger.Debug with (method MDebug) in Hex.
      rewrite method_eq in Hex. resolve Hex. left. apply gated_frame.
  - erewrite via_eq in Hex by done. destruct meta as [|m rest].
    + resolve Hex. by left.
    + change Logger.Info with (method MInfo) in Hex.
      rewrite method_eq in Hex. resolve Hex. left. apply gated_frame.
  - erewrite via_eq in Hex by done. destruct meta as [|m rest].
    + resolve Hex. by left.
    + change Logger.Warn with (method MWarn) in Hex.
      rewrite method_eq in Hex. resolve Hex. left. apply gated_frame.
  - erewrite via_eq in Hex by done. rewrite Error_eq in Hex. resolve Hex.
    by left.
  - erewrite via_eq in Hex by done. rewrite UpdateLogLevel_eq in Hex.
    resolve Hex. left. apply gated_frame.
  - rewrite FromCtx_eq in Hex. resolve Hex. by left.
  - rewrite InCtx_eq in Hex. resolve Hex. by left.
Qed.

Lemma step_configured (s s' : State) :
  step s s' → configured (cfg s) = true → cfg s' = cfg s.
Proof.
  intros [c s1 s2 _ Hex] Hc.
  destruct (exec_cfg _ _ _ Hex) as [|(n & st & Hq & _)]; [done|].
  unfold qualifies in Hq. rewrite Hc in Hq.
  by rewrite andb_false_r in Hq.
Qed.

(** Once configured, no sequence of calls changes the configuration. *)
Lemma configured_forever (s s' : State) :
  rtc step s s' → configured (cfg s) = true → cfg s' = cfg s.
Proof.
  induction 1 as [|s1 s2 s3 Hstep _ IH]; [done|].
  intros Hc. pose proof (step_configured _ _ Hstep Hc) as Heq.
  rewrite IH; [done|]. by rewrite Heq.
Qed.

Lemma runCalls_reachable (cs : list call) :
  Forall callOk cs → ∀ s s',
    rtc step boot s → runCalls cs s = Some ((), s') → rtc step boot s'.
Proof.
  induction 1 as [|c cs Hok _ IH]; intros s s' Hs Hrun; simpl in Hrun.
  - unfold ret in Hrun. by simplify_eq.
  - unfold bind in Hrun. destruct (exec c s) as [[[] s1]|] eqn:Hex; [|done].
    apply (IH s1); [|done].
    eapply rtc_r; [done|]. by econstructor.
Qed.

Lemma stateAfter_reachable (cs : list call) :
  Forall callOk cs → is_Some (runCalls cs boot) →
  reachable (stateAfter cs boot).
Proof.
  intros Hok [[[] s'] Hrun]. unfold stateAfter. rewrite Hrun.
  by apply (runCalls_reachable cs Hok boot).
Qed.

(** * The claims *)

(** C2.  The constant block of const.go gives Disabled = -1, Debug = 1,
    Info = 2, Warn = 3 and Error = 4: [iota] counts the specifications of
    the block from zero and [Debug] is the second one.  The order
    Disabled < Debug < Info < Warn < Error holds, the values 0, 1, 2, 3 for
    Debug .. Error do not. *)
Theorem level_constants :
  evalBlock levelBlock 0 (Lit 0) =
    [("Disabled", -1); ("Debug", 1); ("Info", 2); ("Warn", 3); ("Error", 4)]
  ∧ Disabled = -1 ∧ Debug = 1 ∧ Info = 2 ∧ Warn = 3 ∧ Error = 4
  ∧ Disabled < Debug < Info ∧ Info < Warn < Error.
Proof. repeat split; reflexivity. Qed.

(** C1.  A lookup with [FromCtx] on the context returned by [InCtx] never
    finds the bound logger: [InCtx] binds a pointer, [FromCtx] asserts the
    struct type, so it builds another logger, with no dynamic fields, and
    reports it as fresh.  The bound logger, which [CtxLogger] does find,
    holds the supplied field list as one slice-valued element after two nil
    entries. *)
Theorem FromCtx_after_InCtx_is_fresh (ctx : Context) (fields : list string)
    (s : State) :
  ∃ (ctx' : Context) (s1 s2 : State) (bound q : loc),
    InCtx ctx fields s = Some (ctx', s1) ∧
    Value ctx' loggerCtxKey = Some (PtrLogger bound) ∧
    CtxLogger ctx' = (Some bound, true) ∧
    heap s1 !! bound = Some (boundLogger ctx fields (cfg s)) ∧
    FromCtx ctx' s1 = Some ((q, true), s2) ∧
    q ≠ bound ∧
    heap s2 !! q = Some (freshLogger (cfg s)) ∧
    dynafields (freshLogger (cfg s)) = [] ∧
    heap s2 !! bound = Some (boundLogger ctx fields (cfg s)).
Proof.
  eexists _, _, _, (length (heap s)), (S (length (heap s))).
  split; [apply InCtx_eq|].
  split; [reflexivity|].
  split; [reflexivity|].
  split; [simpl; by rewrite lookup_app_r, Nat.sub_diag|].
  split.
  { rewrite FromCtx_eq. unfold fromCtxLogger. simpl.
    rewrite length_app. simpl. by rewrite Nat.add_1_r. }
  split; [lia|].
  split.
  { simpl. rewrite lookup_app_r; rewrite length_app; simpl; [|lia].
    by replace (S (length (heap s)) - (length (heap s) + 1))%nat
      with 0%nat by lia. }
  split; [done|].
  simpl. rewrite lookup_app_l by (rewrite length_app; simpl; lia).
  by rewrite lookup_app_r, Nat.sub_diag.
Qed.

(** The same at start-up, binding the pair ("a", "b"): the context, the
    result of the lookup, and the dynamic fields of the bound and of the
    returned logger. *)
Example FromCtx_after_InCtx_ab :
  fst <$> (let* ctx' := InCtx Background ["a"; "b"]%string in
           let* r := FromCtx ctx' in
           let* bound := load 1%nat in
           let* got := load (fst r) in
           ret (ctx', r, dynafields bound, dynafields got)) boot =
  Some (WithValue Background loggerCtxKey (PtrLogger 1%nat),
        (2%nat, true),
        [Nil; Nil; StrSlice ["a"; "b"]%string],
        []).
Proof. reflexivity. Qed.

(** C7.  A pair with a nil entry does disturb the pairing of what follows:
    the walk then moves one entry ahead, not two.  For the message fields
    (nil, "a", "b", "c") and no dynamic or static fields the composed map is
    {"a": "b"}, where the pairwise walk of the specification gives
    {"b": "c"}; for (nil, "a", "b") it is {"a": "b"} and not the empty map. *)
Theorem nil_entry_shifts_the_pairs :
  composeFields (mkConfig "" 0 [] false) []
                [Nil; Str "a"; Str "b"; Str "c"] =
    Some {["a" := Str "b"]} ∧
  referenceCompose [Nil; Str "a"; Str "b"; Str "c"] [] [] =
    {["b" := Str "c"]} ∧
  composeFields (mkConfig "" 0 [] false) [] [Nil; Str "a"; Str "b"] =
    Some {["a" := Str "b"]} ∧
  referenceCompose [Nil; Str "a"; Str "b"] [] [] = ∅.
Proof. repeat split; reflexivity. Qed.

(** C3.  The dynamic and static walks run only inside the branch taken when
    the call has at least two message entries.  A call with fewer composes
    the empty map, so its record carries neither static nor dynamic fields:
    after [NewLogger(Info, "svc", "rev", "123")], [SetDyna("req", "7")] and
    [ResetDyna()] the record of [Info("hello")] has no field, and "rev" is
    missing.  Where the walks do run, static beats dynamic beats message. *)
Theorem static_fields_need_message_fields :
  (∀ c d, composeFields c d [] = Some ∅) ∧
  (∀ c d m, composeFields c d [m] = Some ∅) ∧
  out (stateAfter [CallNewLogger Info "svc" [Str "rev"; Str "123"];
                   CallSetDyna 1%nat [Str "req"; Str "7"];
                   CallResetDyna 1%nat;
                   CallInfo 1%nat [Str "hello"]] boot) =
    [zerolog.mkLine zerolog.Stdout zerolog.InfoLevel
       [zerolog.EStr "name" "svc"; zerolog.EFields ∅] "hello"] ∧
  out (stateAfter [CallNewLogger Info "svc" [Str "rev"; Str "123"];
                   CallSetDyna 1%nat [Str "req"; Str "7"];
                   CallInfo 1%nat [Str "hello"; Str "x"; Int 1]] boot) =
    [zerolog.mkLine zerolog.Stdout zerolog.InfoLevel
       [zerolog.EStr "name" "svc";
        zerolog.EFields (<["x" := Int 1]> (<["req" := Str "7"]>
                           {["rev" := Str "123"]}))] "hello"] ∧
  composeFields (mkConfig "svc" 0 [Str "k"; Str "v2"] true)
                [Nil; Nil; Str "k"; Str "v1"] [Str "k"; Str "v3"] =
    Some {["k" := Str "v2"]}.
Proof.
  split; [intros; by rewrite composeFields_walk|].
  split; [intros; by rewrite composeFields_walk|].
  repeat split; reflexivity.
Qed.

(** C8.  [AddDyna(k, v)] appends one element, the slice holding [k] and [v],
    not the two entries.  On a new logger the dynamic fields are then a
    single entry, which the walk skips: the record of a later call with
    message fields ("x", "y") has the field map {"x": "y"} whatever [k] and
    [v] are.  Two calls leave two slices, which the walk takes for one pair:
    the rendering of the first is the key of the second. *)
Theorem AddDyna_appends_one_slice (k v : iface) :
  dynafields <$>
    heap (stateAfter [CallNewLogger Debug "" []; CallAddDyna 1%nat k v]
                     boot) !! 1%nat =
    Some [Slice [k; v]] ∧
  out (stateAfter [CallNewLogger Debug "" []; CallAddDyna 1%nat k v;
                   CallInfo 1%nat [Str "m"; Str "x"; Str "y"]] boot) =
    [zerolog.mkLine zerolog.Stdout zerolog.InfoLevel
       [zerolog.EFields {["x" := Str "y"]}] "m"] ∧
  ({["x" := Str "y"]} : gmap string iface) !! "k" = None ∧
  out (stateAfter [CallNewLogger Debug "" [];
                   CallAddDyna 1%nat (Str "k") (Str "v");
                   CallAddDyna 1%nat (Str "a") (Int 1);
                   CallInfo 1%nat [Str "m"; Str "x"; Str "y"]] boot) =
    [zerolog.mkLine zerolog.Stdout zerolog.InfoLevel
       [zerolog.EFields (<["[k v]" := Slice [Str "a"; Int 1]]>
                           {["x" := Str "y"]})] "m"].
Proof. repeat split; reflexivity. Qed.

(** The effect of [UpdateLogLevel] called through a pointer: the stored
    logger, the configuration and [Default] stay as they are; only the
    audit record may be written. *)
Lemma UpdateLogLevel_via (s : State) (p : loc) (l : Logger) (lv : Z) :
  heap s !! p = Some l →
  via p (λ l, UpdateLogLevel l lv) s =
    Some (updatedCopy l lv,
          gated Info l "Log level updated" (auditFields lv) s).
Proof. intros Hp. erewrite via_eq by done. apply UpdateLogLevel_eq. Qed.

(** C4.  [UpdateLogLevel] has a value receiver and tests the range the
    wrong way round.  On a logger built at level [Debug], a call with the
    in-range level 2 leaves the stored level and both sinks as they were, and
    the copy the method works on ends at level [Error]; a call with the
    out-of-range level 7 writes 7 into that copy only.  The audit record is
    gated by the previous level and carries the field "" = "log level". *)
Theorem UpdateLogLevel_changes_nothing :
  fst <$> (let* p := NewLogger Debug "svc" [] in
           let* copy := via p (λ l, UpdateLogLevel l 2) in
           let* l := load p in
           let* o := getOut in
           ret (Level l, StdLog l, ErrLog l, Level copy, o)) boot =
    Some (Debug, zerolog.New zerolog.Stdout, zerolog.New zerolog.Stderr,
          Error,
          [zerolog.mkLine zerolog.Stdout zerolog.InfoLevel
             [zerolog.EFields {["" := Str "log level"]}]
             "Log level updated"]) ∧
  fst <$> (let* p := NewLogger Debug "svc" [] in
           let* copy := via p (λ l, UpdateLogLevel l 7) in
           let* l := load p in
           ret (Level l, StdLog l, ErrLog l, Level copy)) boot =
    Some (Debug, zerolog.New zerolog.Stdout, zerolog.New zerolog.Stderr, 7) ∧
  fst <$> (let* p := NewLogger Warn "svc" [] in
           let* copy := via p (λ l, UpdateLogLevel l 2) in
           let* l := load p in
           let* o := getOut in
           ret (Level l, Level copy, o)) boot =
    Some (Warn, Error, []).
Proof. repeat split; reflexivity. Qed.

(** What the event constructors give on a logger with open sinks. *)
Lemma openSinks_events (l : Logger) :
  openSinks l →
  zerolog.Info (StdLog l) =
    Some (zerolog.mkEvent (zerolog.w (StdLog l)) zerolog.InfoLevel []) ∧
  zerolog.Error (ErrLog l) =
    Some (zerolog.mkEvent (zerolog.w (ErrLog l)) zerolog.ErrorLevel []).
Proof.
  intros (H1 & H2 & _).
  unfold zerolog.Info, zerolog.Error, zerolog.newEvent, zerolog.should.
  by rewrite H1, H2.
Qed.

Lemma reachable_openSinks (s : State) (p : loc) (l : Logger) :
  reachable s → heap s !! p = Some l → openSinks l.
Proof.
  intros Hs Hp. apply reachable_inv in Hs as [H _].
  by eapply Forall_lookup_1.
Qed.

(** C5.  In every reachable state, for every logger of the store, whatever
    its level, [Error(err, meta...)] hands exactly one record to the writer
    of the error sink, which is on standard error.  The record has level
    error and carries the composed field map; a non-nil error follows it in
    the reserved error entry, a nil error adds no entry.  The message is the
    first argument stringified, or the empty string when there is none. *)
Theorem Error_writes_exactly_once (s : State) (p : loc) (l : Logger)
    (err : error) (meta : list iface) :
  reachable s → heap s !! p = Some l →
  ∃ line : zerolog.Line,
    via p (λ l, Logger.Error l err meta) s =
      Some ((), setOut s (out s ++ [line])) ∧
    zerolog.lw line = zerolog.w (ErrLog l) ∧
    isStderr (zerolog.lw line) = true ∧
    zerolog.llevel line = zerolog.ErrorLevel ∧
    zerolog.lbuf line =
      (if bool_decide (name (cfg s) ≠ "")
       then [zerolog.EStr "name" (name (cfg s))] else []) ++
      [zerolog.EFields (fieldsOf (cfg s) (dynafields l) (tail meta))] ++
      (match err with
       | Some _ => [zerolog.EErr err]
       | None => []
       end) ∧
    zerolog.lmsg line = messageOf meta.
Proof.
  intros Hs Hp.
  pose proof (reachable_openSinks _ _ _ Hs Hp) as Hopen.
  destruct (openSinks_events _ Hopen) as [_ Hev].
  destruct Hopen as (_ & _ & _ & Herr).
  erewrite via_eq by done. rewrite Error_eq.
  unfold errEvent, named. rewrite Hev.
  destruct err as [e|], (bool_decide (name (cfg s) ≠ "")); simpl;
    eexists; (split; [reflexivity|]); simpl; by repeat split.
Qed.

Lemma Error_writes_exactly_once_witness :
  Level <$> heap disabledRun !! 1%nat = Some Disabled ∧
  ∃ line : zerolog.Line,
    via 1%nat (λ l, Logger.Error l (Some "boom"%string) []) disabledRun =
      Some ((), setOut disabledRun (out disabledRun ++ [line])) ∧
    zerolog.lw line = zerolog.Stderr ∧
    isStderr (zerolog.lw line) = true ∧
    zerolog.llevel line = zerolog.ErrorLevel ∧
    zerolog.lbuf line =
      [zerolog.EStr "name" "svc"; zerolog.EFields ∅;
       zerolog.EErr (Some "boom"%string)] ∧
    zerolog.lmsg line = "".
Proof.
  split; [reflexivity|].
  apply (Error_writes_exactly_once disabledRun 1%nat
           (built Production Disabled) (Some "boom"%string) []).
  - apply stateAfter_reachable; [repeat constructor | eexists; reflexivity].
  - reflexivity.
Defined.

(** C5, the case the claim misses.  [Error(nil, "failed")] on the default
    logger at start-up writes one record on standard error, and the record
    has no error entry: it carries the (empty) field map only. *)
Lemma Error_with_nil_error_attaches_nothing :
  out (stateAfter [CallError 0%nat None [Str "failed"]] boot) =
    [zerolog.mkLine zerolog.Stderr zerolog.ErrorLevel
       [zerolog.EFields ∅] "failed"] ∧
  ¬ ∃ (line : zerolog.Line) (e : error),
      line ∈ out (stateAfter [CallError 0%nat None [Str "failed"]] boot) ∧
      zerolog.EErr e ∈ zerolog.lbuf line.
Proof.
  split; [reflexivity|].
  intros (line & e & Hline & He).
  apply list_elem_of_singleton in Hline. subst line.
  apply list_elem_of_singleton in He. discriminate.
Qed.

(** C9.  In every reachable state, a [Debug], [Info] or [Warn] call with a
    message on a logger whose level does not exceed the method's constant
    hands exactly one record to the writer of the normal sink, and that
    record was opened with the sink's info-level constructor: its level is
    info for all three methods. *)
Theorem gated_calls_write_info_records (g : gatedMethod) (s : State)
    (p : loc) (l : Logger) (m : iface) (rest : list iface) :
  reachable s → heap s !! p = Some l → Level l ≤ threshold g →
  ∃ line : zerolog.Line,
    via p (λ l, method g l (m :: rest)) s =
      Some ((), setOut s (out s ++ [line])) ∧
    zerolog.lw line = zerolog.w (StdLog l) ∧
    isStdout (zerolog.lw line) = true ∧
    zerolog.llevel line = zerolog.InfoLevel ∧
    zerolog.lbuf line =
      (if bool_decide (name (cfg s) ≠ "")
       then [zerolog.EStr "name" (name (cfg s))] else []) ++
      [zerolog.EFields (fieldsOf (cfg s) (dynafields l) rest)] ∧
    zerolog.lmsg line = stringify m.
Proof.
  intros Hs Hp Hlv.
  pose proof (reachable_openSinks _ _ _ Hs Hp) as Hopen.
  destruct (openSinks_events _ Hopen) as [Hev _].
  destruct Hopen as (_ & _ & Hstd & _).
  erewrite via_eq by done. rewrite method_eq.
  unfold gated. destruct (Z.gtb_spec (Level l) (threshold g)); [lia|].
  unfold stdEvent, named. rewrite Hev.
  destruct (bool_decide (name (cfg s) ≠ "")); simpl;
    eexists; (split; [reflexivity|]); simpl; by repeat split.
Qed.

Lemma gated_calls_write_info_records_witness :
  Level <$> heap warnRun !! 1%nat = Some Warn ∧
  ∃ line : zerolog.Line,
    via 1%nat (λ l, Logger.Warn l [Str "careful"; Str "x"; Int 1]) warnRun =
      Some ((), setOut warnRun (out warnRun ++ [line])) ∧
    zerolog.lw line = zerolog.ConsoleStdout ∧
    isStdout (zerolog.lw line) = true ∧
    zerolog.llevel line = zerolog.InfoLevel ∧
    zerolog.lbuf line = [zerolog.EFields {["x" := Int 1]}] ∧
    zerolog.lmsg line = "careful".
Proof.
  split; [reflexivity|].
  apply (gated_calls_write_info_records MWarn warnRun 1%nat
           (built Development Warn) (Str "careful") [Str "x"; Int 1]).
  - apply stateAfter_reachable; [repeat constructor | eexists; reflexivity].
  - reflexivity.
  - vm_compute. discriminate.
Defined.

(** C6.  In every reachable state a construction call succeeds, and
    - if the configuration is not yet configured and the call has two or
      more extra arguments, the name and the static fields become the ones
      supplied, [configured] becomes true, and no later sequence of calls
      changes the name or the static fields;
    - if the configuration is already configured, the call leaves it as it
      is, and so does every later sequence of calls;
    - if the call has fewer than two extra arguments, it changes neither
      the configuration nor [Default] (nor the output). *)
Theorem configuration_is_written_once (k : ctor) (lv : Z) (n : string)
    (st : list iface) (s : State) :
  reachable s →
  ∃ (p : loc) (s' : State),
    new k lv n st s = Some (p, s') ∧
    (configured (cfg s) = false → (2 ≤ length st)%nat →
       name (cfg s') = n ∧ stfields (cfg s') = st ∧
       configured (cfg s') = true ∧
       ∀ s'', rtc step s' s'' →
         name (cfg s'') = n ∧ stfields (cfg s'') = st) ∧
    (configured (cfg s) = true →
       cfg s' = cfg s ∧ ∀ s'', rtc step s' s'' → cfg s'' = cfg s) ∧
    ((length st < 2)%nat →
       cfg s' = cfg s ∧ Default s' = Default s ∧ out s' = out s).
Proof.
  intros Hs. apply reachable_inv in Hs as [_ Hun].
  eexists _, _. split; [apply new_eq|]. unfold qualifies.
  split; [|split].
  - intros Hc Hlen. rewrite Hc.
    destruct (Z.ltb_spec 1 (Z.of_nat (length st))); [|lia]. simpl.
    destruct (Hun Hc) as [_ ->].
    split; [done|]. split; [done|]. split; [done|].
    intros s'' Hrtc. by rewrite (configured_forever _ _ Hrtc).
  - intros Hc. rewrite Hc, andb_false_r. simpl. split; [done|].
    intros s'' Hrtc. by rewrite (configured_forever _ _ Hrtc).
  - intros Hlen.
    destruct (Z.ltb_spec 1 (Z.of_nat (length st))); [lia|]. done.
Qed.

Lemma configuration_is_written_once_witness :
  ∃ (p : loc) (s' : State),
    new Production Info "svc" [Str "rev"; Str "123"] boot = Some (p, s') ∧
    (configured (cfg boot) = false → (2 ≤ 2)%nat →
       name (cfg s') = "svc" ∧ stfields (cfg s') = [Str "rev"; Str "123"] ∧
       configured (cfg s') = true ∧
       ∀ s'', rtc step s' s'' →
         name (cfg s'') = "svc" ∧
         stfields (cfg s'') = [Str "rev"; Str "123"]) ∧
    (configured (cfg boot) = true →
       cfg s' = cfg boot ∧ ∀ s'', rtc step s' s'' → cfg s'' = cfg boot) ∧
    ((2 < 2)%nat →
       cfg s' = cfg boot ∧ Default s' = Default boot ∧ out s' = out boot).
Proof.
  apply (configuration_is_written_once Production Info "svc"
           [Str "rev"; Str "123"] boot).
  apply rtc_refl.
Defined.

(** C10.  A construction call always succeeds and returns a new address
    holding the instance it built; [Default] becomes that address exactly
    when the call has two or more extra arguments and the configuration is
    not yet configured, and is left as it was otherwise. *)
Theorem qualifying_construction_replaces_Default (k : ctor) (lv : Z)
    (n : string) (st : list iface) (s : State) :
  ∃ (p : loc) (s' : State),
    new k lv n st s = Some (p, s') ∧
    heap s !! p = None ∧
    heap s' !! p = Some (built k lv) ∧
    Default s' =
      if (1 <? Z.of_nat (length st)) && negb (configured (cfg s))
      then Some p else Default s.
Proof.
  eexists _, _. split; [apply new_eq|].
  split; [by apply lookup_ge_None_2|].
  split; [simpl; by rewrite lookup_app_r, Nat.sub_diag|].
  reflexivity.
Qed.

(** * Further properties of the package *)

(** ** Field composition *)

Lemma walk_ind2 (P : list iface → Prop) :
  P [] → (∀ x, P [x]) →
  (∀ k v rest, P rest → P (v :: rest) → P (k :: v :: rest)) →
  ∀ xs, P xs.
Proof.
  intros H0 H1 H2 xs.
  assert (H : P xs ∧ ∀ x, P (x :: xs)); [|by destruct H].
  induction xs as [|y xs [IH1 IH2]]; [by split|].
  split; [apply IH2|]. intros x. by apply H2.
Qed.

(** The walk over a slice does not look at the map it extends: its result
    is what it inserts, laid over the map it was given. *)
Lemma walk_union (xs : list iface) :
  ∀ base : gmap string iface, walk xs base = walk xs ∅ ∪ base.
Proof.
  induction xs as [|x|k v rest IHr IHt] using walk_ind2; intros base.
  - simpl. by rewrite (left_id_L ∅ (∪)).
  - simpl. by rewrite (left_id_L ∅ (∪)).
  - simpl. destruct (notNil k && notNil v).
    + rewrite (IHr (<[stringify k:=v]> base)), (IHr (<[stringify k:=v]> ∅)).
      rewrite insert_empty, <- (assoc_L (∪)).
      by rewrite <- insert_union_singleton_l.
    + apply IHt.
Qed.

Lemma walk_lookup (xs : list iface) :
  ∀ (fs : gmap string iface) (key : string) (v : iface),
    walk xs fs !! key = Some v →
    fs !! key = Some v ∨
    (notNil v = true ∧ v ∈ xs ∧
     ∃ k, k ∈ xs ∧ notNil k = true ∧ key = stringify k).
Proof.
  induction xs as [|x|k v rest IHr IHt] using walk_ind2;
    intros fs key w Hw; simpl in Hw; [by left | by left |].
  destruct (notNil k && notNil v) eqn:Hnn.
  - apply andb_true_iff in Hnn as [Hk Hv].
    destruct (IHr _ _ _ Hw) as [Hin|(Hw1 & Hw2 & k' & Hk1 & Hk2 & Hk3)].
    + destruct (decide (stringify k = key)) as [<-|Hne].
      * rewrite lookup_insert_eq in Hin. simplify_eq. right.
        split; [done|]. split; [set_solver|]. exists k. set_solver.
      * rewrite lookup_insert_ne in Hin by done. by left.
    + right. split; [done|]. split; [set_solver|]. exists k'. set_solver.
  - destruct (IHt _ _ _ Hw) as [Hin|(Hw1 & Hw2 & k' & Hk1 & Hk2 & Hk3)].
    + by left.
    + right. split; [done|]. split; [by apply elem_of_cons; right|].
      exists k'. split; [by apply elem_of_cons; right | done].
Qed.

(** X1.  Composing the fields of a record never fails: the loops of
    [appendKeyValues] never read outside their slice, whatever the message,
    dynamic and static fields are, nil entries and odd lengths included. *)
Theorem composeFields_never_panics (c : config) (d fields : list iface) :
  is_Some (composeFields c d fields) ∧
  ∀ (xs : list iface) (fs : gmap string iface),
    is_Some (walkFrom (length xs) xs 0 fs) ∧ is_Some (mergePairs xs fs).
Proof.
  split; [rewrite composeFields_walk; by eexists|].
  intros xs fs. rewrite walkFrom_walk, mergePairs_walk. split; by eexists.
Qed.

(** X2.  With two or more message entries the composed map is the map of
    the static fields laid over the map of the dynamic fields laid over the
    map of the message fields, each walked on its own: on a common key the
    static value is kept, then the dynamic one, then the message one. *)
Theorem composeFields_is_layered (c : config) (d fields : list iface) :
  (2 ≤ length fields)%nat →
  composeFields c d fields =
    Some (walk (stfields c) ∅ ∪ (walk d ∅ ∪ walk fields ∅)).
Proof.
  intros Hlen. rewrite composeFields_walk.
  destruct (Z.ltb_spec 1 (Z.of_nat (length fields))); [|lia].
  by rewrite (walk_union (stfields c)), (walk_union d).
Qed.

Lemma composeFields_is_layered_witness :
  composeFields (mkConfig "svc" 0 [Str "k"; Str "static"; Str "s"; Int 1] true)
                [Str "k"; Str "dynamic"; Str "d"; Int 2]
                [Str "k"; Str "message"; Str "m"; Int 3] =
    Some (walk [Str "k"; Str "static"; Str "s"; Int 1] ∅ ∪
          (walk [Str "k"; Str "dynamic"; Str "d"; Int 2] ∅ ∪
           walk [Str "k"; Str "message"; Str "m"; Int 3] ∅)).
Proof.
  apply (composeFields_is_layered
           (mkConfig "svc" 0 [Str "k"; Str "static"; Str "s"; Int 1] true)
           [Str "k"; Str "dynamic"; Str "d"; Int 2]
           [Str "k"; Str "message"; Str "m"; Int 3]).
  simpl. lia.
Defined.

(** X3.  Every entry of a composed map comes from the fields: its value is
    an entry of the message, dynamic or static fields that passed the test
    [!= nil], and its key is the stringified form of such an entry.  The
    test is the one on the interface value: the nil interface is never a
    value of the map, while a nil slice or a nil pointer held in an
    interface passes it and is kept ([typed_nil_is_kept]). *)
Theorem composed_entries_come_from_fields (c : config) (d fields : list iface)
    (fs : gmap string iface) (key : string) (v : iface) :
  composeFields c d fields = Some fs → fs !! key = Some v →
  notNil v = true ∧ v ∈ fields ++ d ++ stfields c ∧
  ∃ k, k ∈ fields ++ d ++ stfields c ∧ notNil k = true ∧ key = stringify k.
Proof.
  rewrite composeFields_walk. intros Hfs Hv. simplify_eq.
  destruct (1 <? Z.of_nat (length fields)); [|by rewrite lookup_empty in Hv].
  apply walk_lookup in Hv as [Hv|(H1 & H2 & k & H3 & H4 & H5)];
    [|split; [done|]; split; [set_solver|]; exists k; set_solver].
  apply walk_lookup in Hv as [Hv|(H1 & H2 & k & H3 & H4 & H5)];
    [|split; [done|]; split; [set_solver|]; exists k; set_solver].
  apply walk_lookup in Hv as [Hv|(H1 & H2 & k & H3 & H4 & H5)];
    [by rewrite lookup_empty in Hv|].
  split; [done|]. split; [set_solver|]. exists k. set_solver.
Qed.

Lemma composed_entries_come_from_fields_witness :
  notNil (Int 7) = true ∧
  Int 7 ∈ [Int 5; Int 7; Nil; Str "x"] ++ [] ++ [] ∧
  ∃ k, k ∈ [Int 5; Int 7; Nil; Str "x"] ++ [] ++ [] ∧
       notNil k = true ∧ "5" = stringify k.
Proof.
  apply (composed_entries_come_from_fields (mkConfig "" 0 [] false) []
           [Int 5; Int 7; Nil; Str "x"] {["5" := Int 7]} "5" (Int 7)).
  - reflexivity.
  - reflexivity.
Defined.

(** A nil [[]string] held in an interface is not the nil interface: the pair
    is inserted, with the nil slice as its value. *)
Example typed_nil_is_kept :
  notNil (StrSlice []) = true ∧
  composeFields (mkConfig "" 0 [] false) [] [Str "tags"; StrSlice []] =
    Some {["tags" := StrSlice []]}.
Proof. split; reflexivity. Qed.

(** ** Dynamic fields *)

Lemma walk_two_nils (d : list iface) (fs : gmap string iface) :
  walk (Nil :: Nil :: d) fs = walk d fs.
Proof. simpl. by destruct d. Qed.

(** X4.  [SetDyna(d...)] stores two nil entries before the arguments, and
    the walk steps over them one at a time: every record composed afterwards
    gets from that logger exactly what a walk over the arguments themselves
    gives. *)
Theorem SetDyna_sets_what_is_composed (s : State) (p : loc) (l : Logger)
    (d : list iface) :
  heap s !! p = Some l →
  ∃ s' l',
    SetDyna p d s = Some ((), s') ∧
    heap s' !! p = Some l' ∧
    dynafields l' = Nil :: Nil :: d ∧
    ∀ c fields, composeFields c (dynafields l') fields =
                composeFields c d fields.
Proof.
  intros Hp. eexists _, _. split; [by apply SetDyna_eq|].
  split.
  { simpl. apply list_lookup_insert_eq. by eapply lookup_lt_Some. }
  split; [done|]. intros c fields. simpl.
  rewrite !composeFields_walk. by rewrite walk_two_nils.
Qed.

Lemma SetDyna_sets_what_is_composed_witness :
  ∃ s' l',
    SetDyna 0%nat [Str "req"; Int 7] boot = Some ((), s') ∧
    heap s' !! 0%nat = Some l' ∧
    dynafields l' = [Nil; Nil; Str "req"; Int 7] ∧
    ∀ c fields, composeFields c (dynafields l') fields =
                composeFields c [Str "req"; Int 7] fields.
Proof.
  apply (SetDyna_sets_what_is_composed boot 0%nat
           (built Production Debug) [Str "req"; Int 7]).
  reflexivity.
Defined.

(** X5.  [SetDyna] replaces: after an earlier [SetDyna] or [ResetDyna] on
    the same logger it ends in the state [SetDyna] alone ends in, and
    [ResetDyna()] is [SetDyna()] without arguments.  After an earlier
    [AddDyna] it leaves the logger itself, the configuration, [Default] and
    the output as [SetDyna] alone does.  The equations hold for every
    pointer; on one that is not allocated both sides panic. *)
Theorem SetDyna_replaces (p : loc) (d d' : list iface) (k v : iface)
    (s : State) :
  (SetDyna p d;; SetDyna p d') s = SetDyna p d' s ∧
  (ResetDyna p;; SetDyna p d') s = SetDyna p d' s ∧
  ResetDyna p s = SetDyna p [] s ∧
  viewAt p ((AddDyna p k v;; SetDyna p d') s) = viewAt p (SetDyna p d' s).
Proof.
  destruct (heap s !! p) as [l|] eqn:Hp.
  - assert (Hlt : (p < length (heap s))%nat) by by eapply lookup_lt_Some.
    unfold bind.
    rewrite (SetDyna_eq p d l s Hp), (AddDyna_eq p k v l s Hp),
            (ResetDyna_eq p l s Hp), (SetDyna_eq p d' l s Hp),
            (SetDyna_eq p [] l s Hp).
    repeat split.
    all: erewrite SetDyna_eq by (simpl; by apply list_lookup_insert_eq).
    all: unfold setHeap; simpl; by rewrite list_insert_insert_eq.
  - unfold bind, SetDyna, AddDyna, ResetDyna, bind, load. by rewrite Hp.
Qed.

Lemma Msg_appends (e : option zerolog.Event) (m : string)
    (o : list zerolog.Line) :
  ∃ lines, zerolog.Msg e m o = o ++ lines ∧ (length lines ≤ 1)%nat.
Proof.
  destruct e; simpl.
  - eexists. split; [done|]. simpl. lia.
  - exists []. split; [by rewrite app_nil_r|]. simpl. lia.
Qed.

Lemma gated_out (thr : Z) (l : Logger) (m : string) (f : list iface)
    (s : State) :
  ∃ lines, out (gated thr l m f s) = out s ++ lines ∧ (length lines ≤ 1)%nat.
Proof.
  unfold gated. destruct (Level l >? thr).
  - exists []. split; [by rewrite app_nil_r|]. simpl. lia.
  - apply Msg_appends.
Qed.

Lemma withDyna_same (l : Logger) : withDyna l (dynafields l) = l.
Proof. by destruct l. Qed.

Lemma kept_same (h : list Logger) (p : loc) (l : Logger) :
  h !! p = Some l → ∃ d, h !! p = Some (withDyna l d).
Proof. intros H. exists (dynafields l). by rewrite withDyna_same. Qed.

Lemma kept_snoc (h : list Logger) (x : Logger) (p : loc) (l : Logger) :
  h !! p = Some l → ∃ d, (h ++ [x]) !! p = Some (withDyna l d).
Proof.
  intros H. apply kept_same. by apply lookup_app_l_Some.
Qed.

Lemma kept_insert (h : list Logger) (q : loc) (lq : Logger) (dq : list iface)
    (p : loc) (l : Logger) :
  h !! q = Some lq → h !! p = Some l →
  ∃ d, <[q := withDyna lq dq]> h !! p = Some (withDyna l d).
Proof.
  intros Hq Hp. destruct (decide (q = p)) as [->|Hne].
  - exists dq. simplify_eq.
    apply list_lookup_insert_eq. by eapply lookup_lt_Some.
  - rewrite list_lookup_insert_ne by done. by apply kept_same.
Qed.

(** The effect of one call on the store and on the output: a stored logger
    keeps everything but, possibly, its dynamic fields, and the output
    grows by at most one record. *)
Lemma exec_shape (c : call) (s s' : State) :
  exec c s = Some ((), s') →
  (∃ lines, out s' = out s ++ lines ∧ (length lines ≤ 1)%nat) ∧
  (∀ p l, heap s !! p = Some l → ∃ d, heap s' !! p = Some (withDyna l d)).
Proof.
  intros Hex.
  assert (Hnil : ∃ lines, out s = out s ++ lines ∧ (length lines ≤ 1)%nat).
  { exists []. split; [by rewrite app_nil_r|]. simpl. lia. }
  destruct c; simpl in Hex; unfold bind in Hex;
    try (destruct (heap s !! p) as [l0|] eqn:Hp0;
         [|unfold via, SetDyna, AddDyna, ResetDyna, bind, load in Hex;
           by rewrite Hp0 in Hex]).
  - change NewLogger with (new Production) in Hex.
    rewrite new_eq in Hex. resolve Hex.
    split; [done|]. intros p l. apply kept_snoc.
  - change NewDevLogger with (new Development) in Hex.
    rewrite new_eq in Hex. resolve Hex.
    split; [done|]. intros p l. apply kept_snoc.
  - unfold Set_, putDefault in Hex. resolve Hex.
    split; [done|]. intros p l'. apply kept_same.
  - unfold Logger.Set_, bind, putDefault, getDefault in Hex. resolve Hex.
    split; [done|]. intros p' l'. apply kept_same.
  - erewrite SetDyna_eq in Hex by done. resolve Hex.
    split; [done|]. intros p' l'. by apply kept_insert.
  - erewrite AddDyna_eq in Hex by done. resolve Hex.
    split; [done|]. intros p' l'. by apply kept_insert.
  - erewrite ResetDyna_eq in Hex by done. resolve Hex.
    split; [done|]. intros p' l'. by apply kept_insert.
  - erewrite via_eq in Hex by done. destruct meta as [|m rest].
    + resolve Hex. split; [done|]. intros p' l'. apply kept_same.
    + change Logger.Debug with (method MDebug) in Hex.
      rewrite method_eq in Hex. resolve Hex. split; [apply gated_out|].
      intros p' l'. rewrite (proj1 (gated_frame _ _ _ _ _)). apply kept_same.
  - erewrite via_eq in Hex by done. destruct meta as [|m rest].
    + resolve Hex. split; [done|]. intros p' l'. apply kept_same.
    + change Logger.Info with (method MInfo) in Hex.
      rewrite method_eq in Hex. resolve Hex. split; [apply gated_out|].
      intros p' l'. rewrite (proj1 (gated_frame _ _ _ _ _)). apply kept_same.
  - erewrite via_eq in Hex by done. destruct meta as [|m rest].
    + resolve Hex. split; [done|]. intros p' l'. apply kept_same.
    + change Logger.Warn with (method MWarn) in Hex.
      rewrite method_eq in Hex. resolve Hex. split; [apply gated_out|].
      intros p' l'. rewrite (proj1 (gated_frame _ _ _ _ _)). apply kept_same.
  - erewrite via_eq in Hex by done. rewrite Error_eq in Hex. resolve Hex.
    split; [apply Msg_appends|]. intros p' l'. apply kept_same.
  - erewrite via_eq in Hex by done. rewrite UpdateLogLevel_eq in Hex.
    resolve Hex. split; [apply gated_out|].
    intros p' l'. rewrite (proj1 (gated_frame _ _ _ _ _)). apply kept_same.
  - rewrite FromCtx_eq in Hex. resolve Hex.
    split; [done|]. intros p l. apply kept_snoc.
  - rewrite InCtx_eq in Hex. resolve Hex.
    split; [done|]. intros p l. apply kept_snoc.
Qed.

(** X6.  A [SetDyna] or [ResetDyna] call touches the dynamic fields of its
    own logger and nothing else: every other stored logger, the
    configuration, [Default] and the output are as before, and the logger
    itself keeps its level and its sinks.  Both calls give the logger a
    backing array of its own and write into no other. *)
Theorem dynamic_fields_are_per_logger (c : call) (p : loc) (s s' : State) :
  dynaTarget c = Some p → exec c s = Some ((), s') →
  cfg s' = cfg s ∧ Default s' = Default s ∧ out s' = out s ∧
  (∀ q, q ≠ p → heap s' !! q = heap s !! q) ∧
  ∃ l d, heap s !! p = Some l ∧ heap s' !! p = Some (withDyna l d).
Proof.
  intros Ht Hex.
  destruct c; simpl in Ht; simplify_eq; simpl in Hex;
    (destruct (heap s !! p) as [l|] eqn:Hp;
     [|unfold SetDyna, ResetDyna, bind, load in Hex;
       by rewrite Hp in Hex]).
  - erewrite SetDyna_eq in Hex by done. resolve Hex.
    repeat split; try done.
    + intros q Hq. by apply list_lookup_insert_ne.
    + eexists _, _. split; [done|].
      apply list_lookup_insert_eq. by eapply lookup_lt_Some.
  - erewrite ResetDyna_eq in Hex by done. resolve Hex.
    repeat split; try done.
    + intros q Hq. by apply list_lookup_insert_ne.
    + eexists _, _. split; [done|].
      apply list_lookup_insert_eq. by eapply lookup_lt_Some.
Qed.

Lemma dynamic_fields_are_per_logger_witness :
  cfg (stateAfter [CallSetDyna 0%nat [Str "req"; Int 7]] boot) = cfg boot ∧
  Default (stateAfter [CallSetDyna 0%nat [Str "req"; Int 7]] boot) =
    Default boot ∧
  out (stateAfter [CallSetDyna 0%nat [Str "req"; Int 7]] boot) = out boot ∧
  (∀ q, q ≠ 0%nat →
     heap (stateAfter [CallSetDyna 0%nat [Str "req"; Int 7]] boot) !! q =
     heap boot !! q) ∧
  ∃ l d, heap boot !! 0%nat = Some l ∧
         heap (stateAfter [CallSetDyna 0%nat [Str "req"; Int 7]] boot)
           !! 0%nat = Some (withDyna l d).
Proof.
  apply (dynamic_fields_are_per_logger
           (CallSetDyna 0%nat [Str "req"; Int 7]) 0%nat boot).
  - reflexivity.
  - reflexivity.
Defined.

(** X7.  No sequence of calls changes the level or a sink of a logger once
    it is built: whatever is called, [UpdateLogLevel] included, the logger
    stored at an address keeps its level, version, revision and both sinks;
    only its dynamic fields may differ. *)
Theorem stored_level_and_sinks_never_change (s s' : State) (p : loc)
    (l : Logger) :
  rtc step s s' → heap s !! p = Some l →
  ∃ l', heap s' !! p = Some l' ∧
        Level l' = Level l ∧ StdLog l' = StdLog l ∧ ErrLog l' = ErrLog l ∧
        Version l' = Version l ∧ Revision l' = Revision l.
Proof.
  intros Hrtc. revert l.
  induction Hrtc as [s|s1 s2 s3 Hstep _ IH]; intros l Hp.
  - by exists l.
  - destruct Hstep as [c s1 s2 _ Hex].
    destruct (proj2 (exec_shape _ _ _ Hex) p l Hp) as [d Hd].
    destruct (IH _ Hd) as (l' & Hl' & H1 & H2 & H3 & H4 & H5).
    by exists l'.
Qed.

Lemma stored_level_and_sinks_never_change_witness :
  ∃ l', heap (stateAfter [CallUpdateLogLevel 0%nat 7;
                          CallSetDyna 0%nat [Str "a"; Int 1]] boot) !! 0%nat =
          Some l' ∧
        Level l' = Level (built Production Debug) ∧
        StdLog l' = StdLog (built Production Debug) ∧
        ErrLog l' = ErrLog (built Production Debug) ∧
        Version l' = Version (built Production Debug) ∧
        Revision l' = Revision (built Production Debug).
Proof.
  apply (stored_level_and_sinks_never_change boot
           (stateAfter [CallUpdateLogLevel 0%nat 7;
                        CallSetDyna 0%nat [Str "a"; Int 1]] boot)
           0%nat (built Production Debug)).
  - apply stateAfter_reachable; [repeat constructor | eexists; reflexivity].
  - reflexivity.
Defined.

(** X8.  The output only grows, by at most one record for each call: after
    [n] calls the records written before are still there, in order, followed
    by at most [n] new ones. *)
Theorem output_is_append_only (n : nat) (s s' : State) :
  nsteps step n s s' →
  ∃ lines, out s' = out s ++ lines ∧ (length lines ≤ n)%nat.
Proof.
  induction 1 as [s|n s1 s2 s3 Hstep _ IH].
  - exists []. split; [by rewrite app_nil_r | done].
  - destruct Hstep as [c s1 s2 _ Hex].
    destruct (proj1 (exec_shape _ _ _ Hex)) as (l1 & H1 & Hn1).
    destruct IH as (l2 & H2 & Hn2).
    exists (l1 ++ l2). rewrite H2, H1, (assoc_L (++)). split; [done|].
    rewrite length_app. lia.
Qed.

Lemma output_is_append_only_witness :
  ∃ lines,
    out (stateAfter [CallError 0%nat None [Str "failed"]] boot) =
      out boot ++ lines ∧ (length lines ≤ 1)%nat.
Proof.
  apply (output_is_append_only 1 boot
           (stateAfter [CallError 0%nat None [Str "failed"]] boot)).
  apply nsteps_once.
  apply (step_call (CallError 0%nat None [Str "failed"]));
    [exact I | reflexivity].
Defined.

(** ** The severity gate *)

(** X9.  A [Debug], [Info] or [Warn] call without arguments, or on a logger
    whose level is above the method's constant, does nothing at all: it
    returns and the whole state, output included, is as before. *)
Theorem dropped_calls_change_nothing (g : gatedMethod) (l : Logger)
    (meta : list iface) (s : State) :
  meta = [] ∨ threshold g < Level l →
  method g l meta s = Some ((), s).
Proof.
  intros [->|Hlv]; [by destruct g|].
  destruct meta as [|m rest]; [by destruct g|].
  rewrite method_eq. unfold gated.
  by destruct (Z.gtb_spec (Level l) (threshold g)); [|lia].
Qed.

Lemma dropped_calls_change_nothing_witness :
  method MInfo (built Production Warn) [Str "hello"; Str "x"; Int 1] boot =
    Some ((), boot).
Proof.
  apply (dropped_calls_change_nothing MInfo (built Production Warn)
           [Str "hello"; Str "x"; Int 1] boot).
  right. vm_compute. reflexivity.
Defined.

(** X10.  Where two of [Debug], [Info] and [Warn] both pass the level check
    of a logger, they do the same thing: the same call through either
    method leaves the same state, with the same record.  The method called
    is not recorded. *)
Theorem gated_methods_are_indistinguishable (g g' : gatedMethod) (l : Logger)
    (meta : list iface) (s : State) :
  Level l ≤ threshold g → Level l ≤ threshold g' →
  method g l meta s = method g' l meta s.
Proof.
  intros Hg Hg'. destruct meta as [|m rest]; [by destruct g, g'|].
  rewrite !method_eq. unfold gated.
  destruct (Z.gtb_spec (Level l) (threshold g)); [lia|].
  by destruct (Z.gtb_spec (Level l) (threshold g')); [lia|].
Qed.

Lemma gated_methods_are_indistinguishable_witness :
  method MDebug (built Production Debug) [Str "m"; Str "x"; Int 1] boot =
  method MWarn (built Production Debug) [Str "m"; Str "x"; Int 1] boot.
Proof.
  apply (gated_methods_are_indistinguishable MDebug MWarn
           (built Production Debug) [Str "m"; Str "x"; Int 1] boot).
  - vm_compute. discriminate.
  - vm_compute. discriminate.
Defined.

(** ** Construction *)

(** X11.  A constructor always returns a new logger without dynamic fields
    whose level lies between [Disabled] and [Error]: the level asked for
    when it lies in that range, [Info] otherwise. *)
Theorem constructed_level_is_in_range (k : ctor) (lv : Z) (n : string)
    (st : list iface) (s : State) :
  ∃ p s' l,
    new k lv n st s = Some (p, s') ∧
    heap s !! p = None ∧ heap s' !! p = Some l ∧
    dynafields l = [] ∧
    Disabled ≤ Level l ≤ Error ∧
    Level l = (if (lv <? Disabled) || (lv >? Error) then Info else lv).
Proof.
  eexists _, _, _. split; [apply new_eq|].
  split; [by apply lookup_ge_None_2|].
  split; [simpl; by rewrite lookup_app_r, Nat.sub_diag|].
  split; [done|]. simpl. unfold clamp. split; [|done].
  destruct (Z.ltb_spec lv Disabled), (Z.gtb_spec lv Error); simpl;
    unfold Disabled, Info, Error in *; lia.
Qed.

(** X12.  Building a logger at a level within [Disabled..Error] and calling
    [Debug], [Info] or [Warn] on it with a message writes one record when
    the level is at most the method's constant and none otherwise.  So a
    logger built at [Disabled] writes all three kinds of call, and one
    built at [Error] writes none of them. *)
Theorem constructed_gate (k : ctor) (lv : Z) (n : string) (st : list iface)
    (g : gatedMethod) (m : iface) (rest : list iface) (s : State) :
  Disabled ≤ lv ≤ Error →
  ∃ s',
    (let* p := new k lv n st in via p (λ l, method g l (m :: rest))) s =
      Some ((), s') ∧
    written s s' = if lv <=? threshold g then 1%nat else 0%nat.
Proof.
  intros Hlv. unfold bind. rewrite new_eq.
  erewrite via_eq by (simpl; by rewrite lookup_app_r, Nat.sub_diag).
  rewrite method_eq. eexists. split; [done|].
  unfold written, gated, built, clamp. simpl.
  destruct (Z.ltb_spec lv Disabled); [lia|].
  destruct (Z.gtb_spec lv Error); [lia|]. simpl.
  destruct (Z.gtb_spec lv (threshold g)), (Z.leb_spec lv (threshold g));
    try lia; simpl.
  - lia.
  - unfold stdEvent, named.
    destruct k, (bool_decide _); simpl; rewrite length_app; simpl; lia.
Qed.

Lemma constructed_gate_witness :
  ∃ s',
    (let* p := new Production Disabled "svc" [] in
     via p (λ l, method MDebug l [Str "still written"])) boot =
      Some ((), s') ∧
    written boot s' = 1%nat.
Proof.
  apply (constructed_gate Production Disabled "svc" [] MDebug
           (Str "still written") [] boot).
  vm_compute. split; discriminate.
Defined.

(** X13.  The name passed to a constructor is used only by a call that
    configures: with fewer than two extra arguments, or once the
    configuration is configured, two calls that differ in the name alone do
    the same thing. *)
Theorem name_is_ignored_unless_configuring (k : ctor) (lv : Z)
    (n n' : string) (st : list iface) (s : State) :
  (length st < 2)%nat ∨ configured (cfg s) = true →
  new k lv n st s = new k lv n' st s.
Proof.
  intros H. rewrite !new_eq.
  assert (Hq : qualifies st (cfg s) = false); [|by rewrite Hq].
  unfold qualifies. destruct H as [H| ->].
  - by destruct (Z.ltb_spec 1 (Z.of_nat (length st))); [lia|].
  - apply andb_false_r.
Qed.

Lemma name_is_ignored_unless_configuring_witness :
  new Production Debug "logger" [] zeroState =
  new Production Debug "" [] zeroState.
Proof.
  apply (name_is_ignored_unless_configuring Production Debug "logger" ""
           [] zeroState).
  left. simpl. lia.
Defined.

(** X14.  [init] run in any state makes [Default] a new logger of level
    [Debug] on standard output and standard error; it leaves the
    configuration, the other loggers and the output as they are, so the
    name "logger" it passes is stored nowhere. *)
Theorem init_installs_a_default (s : State) :
  ∃ s' p l,
    init s = Some ((), s') ∧
    Default s' = Some p ∧ heap s !! p = None ∧ heap s' !! p = Some l ∧
    Level l = Debug ∧ dynafields l = [] ∧
    zerolog.w (StdLog l) = zerolog.Stdout ∧
    zerolog.w (ErrLog l) = zerolog.Stderr ∧
    cfg s' = cfg s ∧ out s' = out s ∧
    ∀ q lq, heap s !! q = Some lq → heap s' !! q = Some lq.
Proof.
  unfold init, bind. change NewLogger with (new Production).
  rewrite new_eq. eexists _, _, _. split; [reflexivity|]. simpl.
  split; [done|]. split; [by apply lookup_ge_None_2|].
  split; [by rewrite lookup_app_r, Nat.sub_diag|].
  repeat split. intros q lq Hq. by apply lookup_app_l_Some.
Qed.

(** ** Level update *)

(** X15.  What [UpdateLogLevel] leaves behind does not depend on the level
    asked for: called through the same pointer with any two levels, it ends
    in the same state, with the same audit record if one is written.  The
    record does not carry the level either, which is the dangling third
    entry of its field list. *)
Theorem UpdateLogLevel_ignores_the_level (p : loc) (lv lv' : Z) (s : State) :
  exec (CallUpdateLogLevel p lv) s = exec (CallUpdateLogLevel p lv') s ∧
  ∀ c d, composeFields c d [Str ""; Str "log level"; Int lv] =
         composeFields c d [Str ""; Str "log level"; Int lv'].
Proof.
  split.
  - simpl. unfold bind.
    destruct (heap s !! p) as [l|] eqn:Hp.
    + rewrite !(UpdateLogLevel_via _ _ _ _ Hp). reflexivity.
    + unfold via, bind, load. by rewrite Hp.
  - intros c d. by rewrite !composeFields_walk.
Qed.

(** ** Dynamic fields, continued *)

Lemma walk_trailing (x : iface) (xs : list iface) :
  nilFree xs → Nat.Even (length xs) →
  ∀ fs, walk (xs ++ [x]) fs = walk xs fs.
Proof.
  induction xs as [|y|k v rest IHr _] using walk_ind2; intros Hnf Hev fs.
  - done.
  - destruct Hev as [n Hn]. simpl in Hn. lia.
  - inversion Hnf as [|? ? Hk Hnf']; subst.
    inversion Hnf' as [|? ? Hv Hrest]; subst.
    change ((k :: v :: rest) ++ [x]) with (k :: v :: (rest ++ [x])).
    simpl. rewrite Hk, Hv. simpl. apply IHr; [done|].
    destruct Hev as [n Hn]. simpl in Hn. exists (n - 1)%nat. lia.
Qed.

(** X16.  After [SetDyna] with complete non-nil pairs, [AddDyna(k, v)] adds
    nothing to any record: its single slice-valued entry is left without a
    partner, and every composed map is the one the pairs alone give. *)
Theorem AddDyna_after_SetDyna_adds_nothing (s : State) (p : loc) (l : Logger)
    (d : list iface) (k v : iface) :
  heap s !! p = Some l → nilFree d → Nat.Even (length d) →
  ∃ s' l',
    (SetDyna p d;; AddDyna p k v) s = Some ((), s') ∧
    heap s' !! p = Some l' ∧
    dynafields l' = Nil :: Nil :: d ++ [Slice [k; v]] ∧
    ∀ c fields, composeFields c (dynafields l') fields =
                composeFields c d fields.
Proof.
  intros Hp Hnf Hev.
  assert (Hlt : (p < length (heap s))%nat) by by eapply lookup_lt_Some.
  unfold bind. rewrite (SetDyna_eq p d l s Hp).
  erewrite AddDyna_eq by (simpl; by apply list_lookup_insert_eq).
  eexists _, _. split; [done|]. simpl.
  split; [rewrite list_insert_insert_eq; by apply list_lookup_insert_eq|].
  split; [done|]. intros c fields. simpl.
  rewrite !composeFields_walk.
  change (Nil :: Nil :: d ++ [Slice [k; v]])
    with (Nil :: Nil :: (d ++ [Slice [k; v]])).
  by rewrite walk_two_nils, walk_trailing.
Qed.

Lemma AddDyna_after_SetDyna_adds_nothing_witness :
  ∃ s' l',
    (SetDyna 0%nat [Str "req"; Int 7];; AddDyna 0%nat (Str "k") (Str "v"))
      boot = Some ((), s') ∧
    heap s' !! 0%nat = Some l' ∧
    dynafields l' =
      Nil :: Nil :: [Str "req"; Int 7] ++ [Slice [Str "k"; Str "v"]] ∧
    ∀ c fields, composeFields c (dynafields l') fields =
                composeFields c [Str "req"; Int 7] fields.
Proof.
  apply (AddDyna_after_SetDyna_adds_nothing boot 0%nat
           (built Production Debug) [Str "req"; Int 7] (Str "k") (Str "v")).
  - reflexivity.
  - repeat constructor.
  - exists 1%nat. reflexivity.
Defined.

(** ** Context binding *)

Lemma Value_pushAll (kvs : list (ctxKey * ctxVal)) (ctx : Context)
    (key : ctxKey) :
  Forall (λ kv, fst kv ≠ key) kvs →
  Value (pushAll kvs ctx) key = Value ctx key.
Proof.
  induction 1 as [|[k v] kvs Hk _ IH]; [done|].
  simpl in *. by rewrite decide_False.
Qed.

(** X17.  [CtxLogger] finds the logger [InCtx] bound, also after any number
    of later bindings under other keys, a plain string "logger" among them:
    it returns the pointer [InCtx] stored, which is a logger allocated by
    that call. *)
Theorem CtxLogger_finds_the_bound_logger (ctx : Context)
    (fields : list string) (kvs : list (ctxKey * ctxVal)) (s : State) :
  Forall (λ kv, fst kv ≠ loggerCtxKey) kvs →
  ∃ ctx' s' p,
    InCtx ctx fields s = Some (ctx', s') ∧
    CtxLogger (pushAll kvs ctx') = (Some p, true) ∧
    heap s !! p = None ∧ is_Some (heap s' !! p).
Proof.
  intros Hk. eexists _, _, (length (heap s)). split; [apply InCtx_eq|].
  split; [unfold CtxLogger; by rewrite Value_pushAll|].
  split; [by apply lookup_ge_None_2|].
  simpl. rewrite lookup_app_r by done. rewrite Nat.sub_diag. by eexists.
Qed.

Lemma CtxLogger_finds_the_bound_logger_witness :
  ∃ ctx' s' p,
    InCtx Background ["a"; "b"]%string boot = Some (ctx', s') ∧
    CtxLogger (pushAll [(stringKey "logger", AnyVal (Str "x"));
                        (contextKey "other", AnyVal Nil)] ctx') =
      (Some p, true) ∧
    heap boot !! p = None ∧ is_Some (heap s' !! p).
Proof.
  apply (CtxLogger_finds_the_bound_logger Background ["a"; "b"]%string
           [(stringKey "logger", AnyVal (Str "x"));
            (contextKey "other", AnyVal Nil)] boot).
  repeat constructor; discriminate.
Defined.

Lemma ownBindings_pushAll (kvs : list (ctxKey * ctxVal)) (ctx : Context) :
  Forall (λ kv, fst kv ≠ loggerCtxKey) kvs →
  ownBindings ctx = true → ownBindings (pushAll kvs ctx) = true.
Proof.
  induction 1 as [|[k v] kvs Hk _ IH]; [done|]. intros Hctx.
  simpl in *. rewrite IH by done. by rewrite decide_False.
Qed.

(** X18.  In a context whose bindings under the private key were all made by
    [InCtx], [FromCtx] never finds a logger: it builds a new one without
    dynamic fields and reports it as fresh, leaving the configuration,
    [Default] and the output as they are.  [InCtx] and bindings under other
    keys keep a context of that kind, so no context the package's users can
    build lets [FromCtx] return a logger bound earlier. *)
Theorem FromCtx_never_finds (ctx : Context) (s : State) :
  ownBindings ctx = true →
  (∃ p s' l,
     FromCtx ctx s = Some ((p, true), s') ∧
     heap s !! p = None ∧ heap s' !! p = Some l ∧ dynafields l = [] ∧
     cfg s' = cfg s ∧ Default s' = Default s ∧ out s' = out s) ∧
  (∀ fields, ∃ ctx' s',
     InCtx ctx fields s = Some (ctx', s') ∧ ownBindings ctx' = true) ∧
  (∀ kvs, Forall (λ kv, fst kv ≠ loggerCtxKey) kvs →
     ownBindings (pushAll kvs ctx) = true).
Proof.
  intros Hown. split; [|split].
  - rewrite FromCtx_eq, ownBindings_miss by done. simpl.
    eexists _, _, _. split; [done|].
    split; [by apply lookup_ge_None_2|].
    split; [simpl; by rewrite lookup_app_r, Nat.sub_diag|]. done.
  - intros fields. rewrite InCtx_eq. eexists _, _. split; [done|].
    simpl. by rewrite Hown.
  - intros kvs Hk. by apply ownBindings_pushAll.
Qed.

Lemma FromCtx_never_finds_witness :
  (∃ p s' l,
     FromCtx (WithValue Background loggerCtxKey (PtrLogger 0%nat)) boot =
       Some ((p, true), s') ∧
     heap boot !! p = None ∧ heap s' !! p = Some l ∧ dynafields l = [] ∧
     cfg s' = cfg boot ∧ Default s' = Default boot ∧ out s' = out boot) ∧
  (∀ fields, ∃ ctx' s',
     InCtx (WithValue Background loggerCtxKey (PtrLogger 0%nat)) fields boot =
       Some (ctx', s') ∧ ownBindings ctx' = true) ∧
  (∀ kvs, Forall (λ kv, fst kv ≠ loggerCtxKey) kvs →
     ownBindings
       (pushAll kvs (WithValue Background loggerCtxKey (PtrLogger 0%nat))) =
     true).
Proof.
  apply (FromCtx_never_finds
           (WithValue Background loggerCtxKey (PtrLogger 0%nat)) boot).
  reflexivity.
Defined.

(** ** Keys *)

(** X19.  Keys are compared after [stringify]: two non-nil keys with the
    same rendering, such as the integer 1 and the string "1", or the
    boolean true and the string "true", name one field, and of two such
    pairs in a list the later one is kept. *)
Theorem keys_collide_by_rendering (k1 v1 k2 v2 : iface)
    (fs : gmap string iface) :
  notNil k1 = true → notNil v1 = true →
  notNil k2 = true → notNil v2 = true →
  stringify k1 = stringify k2 →
  mergePairs [k1; v1; k2; v2] fs = Some (<[stringify k2 := v2]> fs).
Proof.
  intros Hk1 Hv1 Hk2 Hv2 Heq. rewrite mergePairs_walk. simpl.
  rewrite Hk1, Hv1, Hk2, Hv2. simpl.
  by rewrite Heq, insert_insert_eq.
Qed.

Lemma keys_collide_by_rendering_witness :
  mergePairs [Int 1; Str "first"; Str "1"; Str "second"] ∅ =
    Some (<[stringify (Str "1") := Str "second"]> ∅).
Proof.
  apply (keys_collide_by_rendering (Int 1) (Str "first") (Str "1")
           (Str "second") ∅); reflexivity.
Defined.

(** ** The default logger *)

(** X20.  A constructor chained with the method [Set] always installs the
    logger it built as [Default] and returns it, with any number of extra
    arguments and whether or not the configuration is configured. *)
Theorem chained_Set_installs_the_new_logger (k : ctor) (lv : Z) (n : string)
    (st : list iface) (s : State) :
  ∃ p s' l,
    (let* q := new k lv n st in Logger.Set_ q) s = Some (Some p, s') ∧
    Default s' = Some p ∧
    heap s !! p = None ∧ heap s' !! p = Some l ∧
    Level l = (if (lv <? Disabled) || (lv >? Error) then Info else lv) ∧
    out s' = out s.
Proof.
  unfold bind. rewrite new_eq.
  eexists (length (heap s)), _, _. split; [reflexivity|]. simpl.
  split; [done|]. split; [by apply lookup_ge_None_2|].
  split; [by rewrite lookup_app_r, Nat.sub_diag|]. done.
Qed.
